(** * Grid splitter (contact-sheet detection): a shallow embedding

    The development follows the grid splitter utility of node-banana
    (gridSplitter: [createGridForDimensions], [aspectRatioScore],
    [getGridCandidates], [scoreGridByEdges], [analyzeGridFromImageData],
    [detectGridWithGutters], [splitImage], [detectAndSplitGrid]).

    Numbers.  A JavaScript [number] that the code only ever adds,
    multiplies, divides, rounds and compares is an exact rational ([Q]);
    a number that goes through [Math.exp] is a real ([R]).  Pixel
    coordinates, interval bounds and loop counters are integers ([Z]).
    Rounding of IEEE-754 binary64 arithmetic and of [Float32Array] storage
    is not modelled in these, every operation is the exact one, with two
    exceptions where rounding changes an outcome: the regular partition is
    given a second time in binary64, on primitive floats
    ([createGridForDimensions_binary64]), for the values of its cells; and
    [Math_exp] returns 0 below the underflow threshold of [Math.exp].
    [NaN] does not arise for images of positive width and height; the two
    places where the code starts from [Infinity] or [-Infinity] carry an
    [option].

    Arrays.  An array filled by [push] in nested loops is the [flat_map]
    of the loops; an accumulator array such as [colSums] is given entry
    by entry, each entry being the fold of its own updates. *)

From Stdlib Require Import String.
From Stdlib Require Import ZArith QArith Qround Qminmax List Bool Lia.
From Stdlib Require Import Permutation Sorted.
From Stdlib Require Import Reals Qreals Psatz.
From Stdlib Require PrimFloat SpecFloat FloatOps.
Import ListNotations.

Local Open Scope Z_scope.

(** ** JavaScript helpers *)

(** [Math.round]: the nearest integer, ties towards +infinity. *)
Definition Math_round (q : Q) : Z := Qfloor (q + (1 # 2)).

(** [Math.floor]. *)
Definition Math_floor (q : Q) : Z := Qfloor q.

(** [a < b] on numbers. *)
Definition Qltb (a b : Q) : bool := negb (Qle_bool b a).

(** The indices visited by [for (let i = 0; i < n; i++)]. *)
Definition range (n : Z) : list Z := map Z.of_nat (seq 0 (Z.to_nat n)).

(** The indices visited by [for (let i = lo; i <= hi; i++)]. *)
Definition range_incl (lo hi : Z) : list Z :=
  map (fun k => lo + Z.of_nat k) (seq 0 (Z.to_nat (hi - lo + 1))).

(** [Array.prototype.sort(compare)], stable.  [before a b] is
    [compare(a, b) < 0]: element [a] has to come before [b]. *)
Section ArraySort.
Context {A : Type} (before : A -> A -> bool).

Fixpoint sort_insert (v : A) (l : list A) : list A :=
  match l with
  | [] => [v]
  | e :: l' => if before e v then e :: sort_insert v l' else v :: e :: l'
  end.

Definition Array_sort (l : list A) : list A := fold_right sort_insert [] l.
End ArraySort.

(** ** Data model *)

Module GridCell.
Record t : Set := mk { x : Z; y : Z; width : Z; height : Z }.
End GridCell.

Module GridDetectionResult.
Record t : Type := mk
  { rows : Z; cols : Z; cells : list GridCell.t; confidence : R }.
End GridDetectionResult.

Module GridCandidate.
Record t : Type := mk
  { rows : Z; cols : Z;
    cellWidth : R; cellHeight : R; cellAspectRatio : R; score : R }.
End GridCandidate.

Module Interval.
Record t : Set := mk { start : Z; end_ : Z; size : Z }.
End Interval.

(** The decoded raster: [data] is row-major RGBA, four entries per pixel,
    each in 0..255. *)
Module ImageData.
Record t : Set := mk { width : Z; height : Z; data : list Z }.

(** [data[i]] *)
Definition get (img : t) (i : Z) : Z := nth (Z.to_nat i) (data img) 0.
End ImageData.

(** ** Regular grid partition

    In exact arithmetic: [width / cols] and [col * cellWidth] are
    rationals.  The bounds and the coverage of the cells are proved on this
    version. *)

Definition createGridForDimensions (width height rows cols : Z)
  : GridDetectionResult.t :=
  let cellWidth := (inject_Z width / inject_Z cols)%Q in
  let cellHeight := (inject_Z height / inject_Z rows)%Q in
  let cells :=
    flat_map (fun row =>
      map (fun col =>
        GridCell.mk (Math_round (inject_Z col * cellWidth))
                    (Math_round (inject_Z row * cellHeight))
                    (Math_round cellWidth)
                    (Math_round cellHeight))
          (range cols))
      (range rows) in
  GridDetectionResult.mk rows cols cells 1%R.

(** ** The regular grid partition in binary64

    [createGridForDimensions] once more, with the quotient
    [width / cols] and the product [col * cellWidth] rounded to binary64 as
    JavaScript does; this is the version whose cell values are those of the
    program bit for bit. *)

(** The number that holds an integer (exact up to 2^53 in magnitude). *)
Definition Number_of_Z (z : Z) : PrimFloat.float :=
  FloatOps.SF2Prim (SpecFloat.binary_normalize 53 1024 z 0 false).

(** The exact value of a finite number; [None] for [NaN] and the
    infinities. *)
Definition Number_to_Q (f : PrimFloat.float) : option Q :=
  match FloatOps.Prim2SF f with
  | SpecFloat.S754_zero _ => Some 0%Q
  | SpecFloat.S754_finite s m e =>
      Some ((if s then - inject_Z (Z.pos m) else inject_Z (Z.pos m))
            * Qpower 2 e)%Q
  | _ => None
  end.

(** [Math.round] of a number, as an integer.  [Math.round(NaN)] is [NaN];
    it does not arise when [rows, cols >= 1]. *)
Definition Math_round64 (f : PrimFloat.float) : Z :=
  match Number_to_Q f with
  | Some q => Math_round q
  | None => 0
  end.

Definition createGridForDimensions_binary64 (width height rows cols : Z)
  : GridDetectionResult.t :=
  let cellWidth := PrimFloat.div (Number_of_Z width) (Number_of_Z cols) in
  let cellHeight := PrimFloat.div (Number_of_Z height) (Number_of_Z rows) in
  let cells :=
    flat_map (fun row =>
      map (fun col =>
        GridCell.mk (Math_round64 (PrimFloat.mul (Number_of_Z col) cellWidth))
                    (Math_round64 (PrimFloat.mul (Number_of_Z row) cellHeight))
                    (Math_round64 cellWidth)
                    (Math_round64 cellHeight))
          (range cols))
      (range rows) in
  GridDetectionResult.mk rows cols cells 1%R.

(** ** Aspect-ratio scoring and candidate ranking *)

Local Open Scope R_scope.

Definition COMMON_ASPECT_RATIOS : list R :=
  [ 16 / 9; 4 / 3; 3 / 2; 1.85; 2.39; 1; 9 / 16; 3 / 4; 2 / 3 ].

(** One turn of the loop of [aspectRatioScore].  [bestMatch] starts at
    [Infinity], which is [None] here. *)
Definition aspect_step (aspectRatio : R) (bestMatch : option R) (commonAR : R)
  : option R :=
  let ratio := if Rgt_dec aspectRatio commonAR
               then aspectRatio / commonAR else commonAR / aspectRatio in
  let distance := ratio - 1 in
  match bestMatch with
  | None => Some distance
  | Some b => Some (Rmin b distance)
  end.

(** [Math.exp] underflows: below this argument the engine's [exp]
    (fdlibm's [u_threshold], used by V8) returns exactly 0. *)
Definition exp_underflow : R := - 745.13321910194110842.

(** [Math.exp] on the arguments this file gives it, which are never
    positive: the real exponential, and exactly 0 once it underflows. *)
Definition Math_exp (x : R) : R :=
  if Rlt_dec x exp_underflow then 0 else exp x.

Definition aspectRatioScore (aspectRatio : R) : R :=
  match fold_left (aspect_step aspectRatio) COMMON_ASPECT_RATIOS None with
  | Some bestMatch => Math_exp (- bestMatch * 3)
  | None => 0 (* Math.exp(-Infinity) *)
  end.

Definition gridCandidate (width height : R) (rows cols : Z) : GridCandidate.t :=
  let imageAspectRatio := width / height in
  let cellWidth := width / IZR cols in
  let cellHeight := height / IZR rows in
  let cellAspectRatio := cellWidth / cellHeight in
  let cellARScore := aspectRatioScore cellAspectRatio in
  let gridAspectRatio := IZR cols / IZR rows in
  let layoutRatio :=
    if Rgt_dec imageAspectRatio gridAspectRatio
    then imageAspectRatio / gridAspectRatio
    else gridAspectRatio / imageAspectRatio in
  let layoutScore := Math_exp (- (layoutRatio - 1) * 2) in
  let cellCount := (rows * cols)%Z in
  let cellCountScore :=
    if (cellCount <=? 6)%Z then 1.0
    else Math_exp (- (IZR cellCount - 6) * 0.15) in
  let gridSymmetry :=
    1 - IZR (Z.abs (rows - cols)) / IZR (Z.max rows cols) in
  let score :=
    cellARScore * 0.55 + layoutScore * 0.25 +
    cellCountScore * 0.10 + gridSymmetry * 0.10 in
  GridCandidate.mk rows cols cellWidth cellHeight cellAspectRatio score.

(** [(a, b) => b.score - a.score] is negative when [b.score < a.score]. *)
Definition by_score_desc (a b : GridCandidate.t) : bool :=
  if Rlt_dec (GridCandidate.score b - GridCandidate.score a) 0
  then true else false.

(** The array [candidates] when the two loops are over. *)
Definition generated (width height : Z) : list GridCandidate.t :=
  flat_map (fun rows =>
    flat_map (fun cols =>
      if (rows =? 1)%Z && (cols =? 1)%Z then [] (* continue *)
      else [gridCandidate (IZR width) (IZR height) rows cols])
      (range_incl 1 6))
    (range_incl 1 6).

Definition getGridCandidates (width height : Z) : list GridCandidate.t :=
  let candidates := generated width height in
  Array_sort by_score_desc candidates.

Local Close Scope R_scope.

(** ** Edge profiles *)

Local Open Scope Q_scope.

(** [(gradR + gradG + gradB) / 3] between the pixels at buffer offsets
    [idxA] and [idxB]. *)
Definition gradient (img : ImageData.t) (idxA idxB : Z) : Q :=
  let gradR := Z.abs (ImageData.get img idxB - ImageData.get img idxA) in
  let gradG := Z.abs (ImageData.get img (idxB + 1) - ImageData.get img (idxA + 1)) in
  let gradB := Z.abs (ImageData.get img (idxB + 2) - ImageData.get img (idxA + 2)) in
  inject_Z (gradR + gradG + gradB) / 3.

(** The profile arrays start zero-filled; entry [x] is written once, for
    the interior columns only. *)
Definition calculateVerticalEdgeProfile (img : ImageData.t) : list Q :=
  let width := ImageData.width img in
  let height := ImageData.height img in
  map (fun x =>
         if ((1 <=? x) && (x <? width - 1))%Z then
           let totalGradient :=
             fold_left (fun acc y =>
                          let idxLeft := ((y * width + (x - 1)) * 4)%Z in
                          let idxRight := ((y * width + (x + 1)) * 4)%Z in
                          acc + gradient img idxLeft idxRight)
                       (range height) 0 in
           totalGradient / inject_Z height
         else 0)
      (range width).

Definition calculateHorizontalEdgeProfile (img : ImageData.t) : list Q :=
  let width := ImageData.width img in
  let height := ImageData.height img in
  map (fun y =>
         if ((1 <=? y) && (y <? height - 1))%Z then
           let totalGradient :=
             fold_left (fun acc x =>
                          let idxUp := (((y - 1) * width + x) * 4)%Z in
                          let idxDown := (((y + 1) * width + x) * 4)%Z in
                          acc + gradient img idxUp idxDown)
                       (range width) 0 in
           totalGradient / inject_Z width
         else 0)
      (range height).

(** [profile[pos]] *)
Definition profile_get (profile : list Q) (pos : Z) : Q :=
  nth (Z.to_nat pos) profile 0.

(** Mean of a profile: the running sum divided by [profile.length]. *)
Definition baseline (profile : list Q) : Q :=
  fold_left Qplus profile 0 / inject_Z (Z.of_nat (length profile)).

(** The strongest profile value in the search window around
    [expectedPos]; positions outside [1 .. limit - 2] are skipped. *)
Definition window_max (profile : list Q) (limit expectedPos searchWindow : Z) : Q :=
  fold_left (fun maxStrength offset =>
               let pos := (expectedPos + offset)%Z in
               if ((0 <? pos) && (pos <? limit - 1))%Z
               then Qmax maxStrength (profile_get profile pos)
               else maxStrength)
            (range_incl (- searchWindow) searchWindow) 0.

(** The loop over the internal division points of one axis, threading
    [(totalRatio, divisions)]. *)
Definition score_axis (profile : list Q) (base : Q) (limit parts searchWindow : Z)
           (st : Q * Z) : Q * Z :=
  if (1 <? parts)%Z then
    let cellSize := inject_Z limit / inject_Z parts in
    fold_left (fun (st : Q * Z) i =>
                 let expectedPos := Math_round (cellSize * inject_Z i) in
                 let maxStrength := window_max profile limit expectedPos searchWindow in
                 let ratio := if Qltb 0 base then maxStrength / base else 1 in
                 (fst st + Qmin ratio 3, (snd st + 1)%Z))
              (range_incl 1 (parts - 1)) st
  else st.

Definition scoreGridByEdges (rows cols width height : Z)
           (verticalProfile horizontalProfile : list Q) : Q :=
  let verticalBaseline := baseline verticalProfile in
  let horizontalBaseline := baseline horizontalProfile in
  let searchWindow :=
    Z.max 3 (Math_floor
               (Qmin (inject_Z width / inject_Z cols)
                     (inject_Z height / inject_Z rows) * 0.03)) in
  let st := (0, 0%Z) in
  let st := score_axis verticalProfile verticalBaseline width cols searchWindow st in
  let st := score_axis horizontalProfile horizontalBaseline height rows searchWindow st in
  let '(totalRatio, divisions) := st in
  if (divisions =? 0)%Z then 0
  else
    let avgRatio := totalRatio / inject_Z divisions in
    Qmin ((avgRatio - 1) / 2) 1.

Local Close Scope Q_scope.

(** ** Geometric detector *)

Local Open Scope R_scope.

(** One turn of the selection loop over the top candidates.  The state is
    [(bestCandidate, bestCombinedScore)]; [None] is the initial
    [-Infinity]. *)
Definition pick_step (img : ImageData.t) (vp hp : list Q)
           (st : GridCandidate.t * option R) (candidate : GridCandidate.t)
  : GridCandidate.t * option R :=
  let edgeScore :=
    scoreGridByEdges (GridCandidate.rows candidate) (GridCandidate.cols candidate)
                     (ImageData.width img) (ImageData.height img) vp hp in
  let combinedScore := GridCandidate.score candidate * 0.8 + Q2R edgeScore * 0.2 in
  match snd st with
  | None => (candidate, Some combinedScore)
  | Some bestCombinedScore =>
      if Rgt_dec combinedScore bestCombinedScore
      then (candidate, Some combinedScore) else st
  end.

Definition analyzeGridFromImageData (img : ImageData.t) : option GridDetectionResult.t :=
  let width := ImageData.width img in
  let height := ImageData.height img in
  let candidates := getGridCandidates width height in
  let verticalEdgeStrength := calculateVerticalEdgeProfile img in
  let horizontalEdgeStrength := calculateHorizontalEdgeProfile img in
  match candidates with
  | [] => None (* candidates[0] is undefined: the access below throws *)
  | c0 :: _ =>
      let '(bestCandidate, bestCombinedScore) :=
        fold_left (pick_step img verticalEdgeStrength horizontalEdgeStrength)
                  (firstn 8 candidates) (c0, None) in
      match bestCombinedScore with
      | None => None (* not reached: the slice is never empty *)
      | Some s =>
          let result :=
            createGridForDimensions width height
              (GridCandidate.rows bestCandidate) (GridCandidate.cols bestCandidate) in
          Some (GridDetectionResult.mk
                  (GridDetectionResult.rows result)
                  (GridDetectionResult.cols result)
                  (GridDetectionResult.cells result)
                  s)
      end
  end.

Local Close Scope R_scope.

(** ** Projection gap detector *)

Local Open Scope Q_scope.

(** [(data[i] + data[i + 1] + data[i + 2]) / 3] at pixel [(x, y)]. *)
Definition brightness (img : ImageData.t) (x y : Z) : Q :=
  let i := ((y * ImageData.width img + x) * 4)%Z in
  inject_Z (ImageData.get img i + ImageData.get img (i + 1)
            + ImageData.get img (i + 2)) / 3.

(** [colSums[x]] once the two nested loops are over: the brightness of
    column [x] accumulated over [y = 0 .. height - 1]. *)
Definition colSums (img : ImageData.t) (x : Z) : Q :=
  fold_left (fun acc y => acc + brightness img x y)
            (range (ImageData.height img)) 0.

Definition rowSums (img : ImageData.t) (y : Z) : Q :=
  fold_left (fun acc x => acc + brightness img x y)
            (range (ImageData.width img)) 0.

Definition isColumnGap (img : ImageData.t) (x : Z) : bool :=
  Qltb (colSums img x / inject_Z (ImageData.height img)) 30.

Definition isRowGap (img : ImageData.t) (y : Z) : bool :=
  Qltb (rowSums img y / inject_Z (ImageData.width img)) 30.

(** The scanning loop of [findIntervals]; the state is
    [(intervals, inContent, start)]. *)
Definition scan_step (isGapFn : Z -> bool)
           (st : list Interval.t * bool * Z) (i : Z)
  : list Interval.t * bool * Z :=
  let '(intervals, inContent, start) := st in
  if negb (isGapFn i) then
    if negb inContent then (intervals, true, i) else st
  else
    if inContent
    then (intervals ++ [Interval.mk start (i - 1) (i - start)], false, start)
    else st.

Definition scan_finish (length : Z) (st : list Interval.t * bool * Z)
  : list Interval.t :=
  let '(intervals, inContent, start) := st in
  if inContent
  then intervals ++ [Interval.mk start (length - 1) (length - start)]
  else intervals.

(** [iv.size > length * 0.05] *)
Definition not_tiny (length : Z) (iv : Interval.t) : bool :=
  Qltb (inject_Z length * 0.05) (inject_Z (Interval.size iv)).

Definition findIntervals (length : Z) (isGapFn : Z -> bool) : list Interval.t :=
  let intervals :=
    scan_finish length
      (fold_left (scan_step isGapFn) (range length) ([], false, 0%Z)) in
  filter (not_tiny length) intervals.

Definition area (c : GridCell.t) : Z :=
  (GridCell.width c * GridCell.height c)%Z.

(** The cross-product of step 3. *)
Definition gutter_cells (rowIntervals colIntervals : list Interval.t)
  : list GridCell.t :=
  flat_map (fun rowIv =>
    map (fun colIv =>
           GridCell.mk (Interval.start colIv) (Interval.start rowIv)
                       (Interval.size colIv) (Interval.size rowIv))
        colIntervals)
    rowIntervals.

(** [(a, b) => a - b] *)
Definition numeric_asc (a b : Z) : bool := (a - b <? 0)%Z.

(** [areas[Math.floor(areas.length / 2)]] of the sorted areas. *)
Definition medianArea (cells : list GridCell.t) : Z :=
  let areas := Array_sort numeric_asc (map area cells) in
  nth (Nat.div (length areas) 2) areas 0%Z.

(** [area > medianArea * 0.5] *)
Definition big_enough (median : Z) (c : GridCell.t) : bool :=
  Qltb (inject_Z median * 0.5) (inject_Z (area c)).

(** The body of [detectGridWithGutters] on the decoded pixels. *)
Definition detectGridWithGutters_pixels (img : ImageData.t)
  : option GridDetectionResult.t :=
  let colIntervals := findIntervals (ImageData.width img) (isColumnGap img) in
  let rowIntervals := findIntervals (ImageData.height img) (isRowGap img) in
  if (Nat.eqb (length rowIntervals) 0 || Nat.eqb (length colIntervals) 0)%bool
  then None
  else
    let cells := gutter_cells rowIntervals colIntervals in
    let validCells := filter (big_enough (medianArea cells)) cells in
    Some (GridDetectionResult.mk
            (Z.of_nat (length rowIntervals))
            (Z.of_nat (length colIntervals))
            validCells
            0.95%R).

Local Close Scope Q_scope.

(** ** Promises and the browser *)

Inductive Promise (A : Type) : Type :=
| Resolved (a : A)
| Rejected (message : String.string).
Arguments Resolved {A} a.
Arguments Rejected {A} message.

(** [await p] followed by the rest of an async function. *)
Definition await {A B : Type} (p : Promise A) (k : A -> Promise B) : Promise B :=
  match p with
  | Resolved a => k a
  | Rejected m => Rejected m
  end.

Section Browser.
(** Decoding the data URL and reading its pixels back from a canvas;
    [None] is [img.onerror]. *)
Variable loadImage : String.string -> option ImageData.t.
(** Whether [canvas.getContext("2d")] hands out a context. *)
Variable getContext2d : bool.
(** Drawing the cell's rectangle of the image on a canvas of the cell's
    size and encoding it with [toDataURL("image/png")]. *)
Variable cropToDataURL : ImageData.t -> GridCell.t -> String.string.

Definition detectGrid (imageDataUrl : String.string)
  : Promise GridDetectionResult.t :=
  match loadImage imageDataUrl with
  | None => Rejected "Failed to load image"%string
  | Some img =>
      if getContext2d then
        match analyzeGridFromImageData img with
        | Some result => Resolved result
        | None => Rejected "TypeError"%string
        end
      else Rejected "Could not get canvas context"%string
  end.

Definition detectGridWithGutters (imageDataUrl : String.string)
  : Promise (option GridDetectionResult.t) :=
  match loadImage imageDataUrl with
  | None => Resolved None
  | Some img =>
      if getContext2d then Resolved (detectGridWithGutters_pixels img)
      else Resolved None
  end.

(** The loop of [splitImage] over [grid.cells]. *)
Fixpoint split_loop (img : ImageData.t) (cells : list GridCell.t)
         (results : list String.string) : Promise (list String.string) :=
  match cells with
  | [] => Resolved results
  | cell :: rest =>
      if getContext2d
      then split_loop img rest (results ++ [cropToDataURL img cell])
      else Rejected "Could not get canvas context"%string
  end.

Definition splitImage (imageDataUrl : String.string)
           (grid : GridDetectionResult.t) : Promise (list String.string) :=
  match loadImage imageDataUrl with
  | None => Rejected "Failed to load image"%string
  | Some img => split_loop img (GridDetectionResult.cells grid) []
  end.

(** [!grid || grid.cells.length < 2] *)
Definition needs_fallback (grid : option GridDetectionResult.t) : bool :=
  match grid with
  | None => true
  | Some g => Nat.ltb (length (GridDetectionResult.cells g)) 2
  end.

Definition detectAndSplitGrid (imageDataUrl : String.string)
  : Promise (GridDetectionResult.t * list String.string) :=
  await (detectGridWithGutters imageDataUrl) (fun grid =>
  await (if needs_fallback grid then detectGrid imageDataUrl
         else match grid with
              | Some g => Resolved g
              | None => Rejected "TypeError"%string
              end) (fun grid =>
  await (splitImage imageDataUrl grid) (fun images =>
  Resolved (grid, images)))).
End Browser.

(** ** Vocabulary of the statements *)

(** Cell [(row, col)] of the regular partition, as the loop body builds
    it. *)
Definition gridCellAt (w h rows cols row col : Z) : GridCell.t :=
  GridCell.mk (Math_round (inject_Z col * (inject_Z w / inject_Z cols)))
              (Math_round (inject_Z row * (inject_Z h / inject_Z rows)))
              (Math_round (inject_Z w / inject_Z cols))
              (Math_round (inject_Z h / inject_Z rows)).

(** The same cell with the arithmetic of the program: the quotient and the
    products are binary64 numbers. *)
Definition gridCellAt_binary64 (w h rows cols row col : Z) : GridCell.t :=
  GridCell.mk
    (Math_round64 (PrimFloat.mul (Number_of_Z col)
                     (PrimFloat.div (Number_of_Z w) (Number_of_Z cols))))
    (Math_round64 (PrimFloat.mul (Number_of_Z row)
                     (PrimFloat.div (Number_of_Z h) (Number_of_Z rows))))
    (Math_round64 (PrimFloat.div (Number_of_Z w) (Number_of_Z cols)))
    (Math_round64 (PrimFloat.div (Number_of_Z h) (Number_of_Z rows))).

(** The bounds invariant of a cell inside an image. *)
Definition cell_in_bounds (imageWidth imageHeight : Z) (c : GridCell.t) : Prop :=
  GridCell.x c + GridCell.width c <= imageWidth /\
  GridCell.y c + GridCell.height c <= imageHeight /\
  GridCell.width c > 0 /\ GridCell.height c > 0.

(** What independent rounding leaves of it for a [rows] by [cols]
    partition: one pixel of overshoot, and cells that are empty when there
    are more than twice as many parts as pixels. *)
Definition cell_near_bounds (imageWidth imageHeight rows cols : Z)
           (c : GridCell.t) : Prop :=
  0 <= GridCell.x c /\ 0 <= GridCell.y c /\
  GridCell.x c + GridCell.width c <= imageWidth + 1 /\
  GridCell.y c + GridCell.height c <= imageHeight + 1 /\
  0 <= GridCell.width c /\ 0 <= GridCell.height c /\
  (0 < GridCell.width c <-> cols <= 2 * imageWidth) /\
  (0 < GridCell.height c <-> rows <= 2 * imageHeight).

(** Position [p] is at most one pixel away from the pixels
    [start .. start + size - 1]. *)
Definition within_1px (p start size : Z) : Prop :=
  start - 1 <= p <= start + size.

(** [iv] is a maximal run of content positions of an axis of the given
    length: no gap inside, and a gap or the end of the axis on each
    side. *)
Definition content_run (length : Z) (isGapFn : Z -> bool) (iv : Interval.t) : Prop :=
  0 <= Interval.start iv /\ Interval.start iv <= Interval.end_ iv /\
  Interval.end_ iv < length /\
  Interval.size iv = Interval.end_ iv - Interval.start iv + 1 /\
  (forall i, Interval.start iv <= i <= Interval.end_ iv -> isGapFn i = false) /\
  (Interval.start iv = 0 \/ isGapFn (Interval.start iv - 1) = true) /\
  (Interval.end_ iv = length - 1 \/ isGapFn (Interval.end_ iv + 1) = true).

(** The size of [iv] exceeds 5% of the axis length. *)
Definition retained (length : Z) (iv : Interval.t) : Prop :=
  (inject_Z length * 0.05 < inject_Z (Interval.size iv))%Q.

(** A run that a gap at a position before [k] has closed. *)
Definition closed_run (isGapFn : Z -> bool) (k : Z) (iv : Interval.t) : Prop :=
  0 <= Interval.start iv /\ Interval.start iv <= Interval.end_ iv /\
  Interval.size iv = Interval.end_ iv - Interval.start iv + 1 /\
  (forall i, Interval.start iv <= i <= Interval.end_ iv -> isGapFn i = false) /\
  (Interval.start iv = 0 \/ isGapFn (Interval.start iv - 1) = true) /\
  Interval.end_ iv + 1 < k /\ isGapFn (Interval.end_ iv + 1) = true.

(** The invariant of the scanning loop after positions [0 .. k - 1]. *)
Definition scan_inv (isGapFn : Z -> bool) (k : Z)
           (st : list Interval.t * bool * Z) : Prop :=
  let '(intervals, inContent, start) := st in
  (forall iv, In iv intervals <-> closed_run isGapFn k iv) /\
  (if inContent
   then 0 <= start < k /\
        (forall i, start <= i < k -> isGapFn i = false) /\
        (start = 0 \/ isGapFn (start - 1) = true)
   else k = 0 \/ isGapFn (k - 1) = true).

(** [before b a] fails: [a] may stay in front of [b]. *)
Definition not_after {A : Type} (before : A -> A -> bool) (a b : A) : Prop :=
  before b a = false.

(** A white pixel, a black pixel and a white pixel in one row: two columns
    of content separated by a one-pixel gutter. *)
Definition two_dots : ImageData.t :=
  ImageData.mk 3 1 [255; 255; 255; 255;  0; 0; 0; 255;  255; 255; 255; 255].

(** The symmetric multiplicative distance [max(ratio/c, c/ratio) - 1]. *)
Definition symmetric_distance (ratio c : R) : R :=
  (Rmax (ratio / c) (c / ratio) - 1)%R.

(** The distance as the loop body computes it. *)
Definition loop_distance (aspectRatio commonAR : R) : R :=
  ((if Rgt_dec aspectRatio commonAR
    then aspectRatio / commonAR else commonAR / aspectRatio) - 1)%R.

(** The canonical list read off the prose: 16:9, 4:3, 3:2, 1.85, 2.39, 1:1
    and the reciprocal of each of them. *)
Definition RATIOS_WITH_RECIPROCALS : list R :=
  ([ 16 / 9; 4 / 3; 3 / 2; 1.85; 2.39; 1;
     9 / 16; 3 / 4; 2 / 3; 1 / 1.85; 1 / 2.39; 1 / 1 ])%R.

(** The four components of a candidate's score, for an image of size
    [width] by [height]. *)
Definition cellARScore (width height : R) (rows cols : Z) : R :=
  aspectRatioScore ((width / IZR cols) / (height / IZR rows))%R.

Definition layoutScore (width height : R) (rows cols : Z) : R :=
  Math_exp (- 2 * symmetric_distance (width / height) (IZR cols / IZR rows))%R.

Definition cellCountScore (rows cols : Z) : R :=
  if rows * cols <=? 6 then 1%R
  else exp (- 0.15 * (IZR (rows * cols) - 6))%R.

Definition gridSymmetry (rows cols : Z) : R :=
  (1 - IZR (Z.abs (rows - cols)) / IZR (Z.max rows cols))%R.

(** [(rows, cols)] is one of the configurations the generator tries. *)
Definition tried (rows cols : Z) : Prop :=
  1 <= rows <= 6 /\ 1 <= cols <= 6 /\ ~ (rows = 1 /\ cols = 1).

(** Whether a candidate is the [rows] by [cols] grid. *)
Definition is_grid (rows cols : Z) (c : GridCandidate.t) : bool :=
  (GridCandidate.rows c =? rows) && (GridCandidate.cols c =? cols).

(** A 10 by 10 image, black but for its white first column. *)
Definition white_first_column : ImageData.t :=
  ImageData.mk 10 10
    (flat_map (fun y =>
       flat_map (fun x => if x =? 0 then [255; 255; 255; 255] else [0; 0; 0; 255])
                (range 10))
       (range 10)).

(** One axis of the regular partition in integer arithmetic: part [c] of
    [n] starts at [round(c * w / n)] and is [round(w / n)] long. *)
Definition axis_start (w n c : Z) : Z := (2 * c * w + n) / (2 * n).
Definition axis_extent (w n : Z) : Z := (2 * w + n) / (2 * n).

(** What the two division loops maintain of [(totalRatio, divisions)]:
    every division adds a ratio between 0 and 3. *)
Definition ratio_inv (st : Q * Z) : Prop :=
  0 <= snd st /\ (0 <= fst st)%Q /\ (fst st <= 3 * inject_Z (snd st))%Q.

(** Interval [a] ends before [b] starts, with at least one position
    between them. *)
Definition separated (a b : Interval.t) : Prop :=
  Interval.end_ a + 1 < Interval.start b.

(** Two cells share no pixel. *)
Definition cells_disjoint (a b : GridCell.t) : Prop :=
  GridCell.x a + GridCell.width a <= GridCell.x b \/
  GridCell.x b + GridCell.width b <= GridCell.x a \/
  GridCell.y a + GridCell.height a <= GridCell.y b \/
  GridCell.y b + GridCell.height b <= GridCell.y a.

(** One white pixel. *)
Definition white_pixel : ImageData.t := ImageData.mk 1 1 [255; 255; 255; 255].

(** One black pixel. *)
Definition black_pixel : ImageData.t := ImageData.mk 1 1 [0; 0; 0; 255].

(** The score the selection loop gives a candidate:
    [candidate.score * 0.8 + edgeScore * 0.2]. *)
Definition combinedScore (img : ImageData.t) (candidate : GridCandidate.t) : R :=
  (GridCandidate.score candidate * 0.8
   + Q2R (scoreGridByEdges
            (GridCandidate.rows candidate) (GridCandidate.cols candidate)
            (ImageData.width img) (ImageData.height img)
            (calculateVerticalEdgeProfile img)
            (calculateHorizontalEdgeProfile img)) * 0.2)%R.

(** All pixels of the image have the same red, green and blue values. *)
Definition uniform (img : ImageData.t) : Prop :=
  exists r g b,
    forall x y,
      0 <= x < ImageData.width img -> 0 <= y < ImageData.height img ->
      let i := (y * ImageData.width img + x) * 4 in
      ImageData.get img i = r /\ ImageData.get img (i + 1) = g /\
      ImageData.get img (i + 2) = b.

(** ** The entry points with user-specified dimensions *)

Section BrowserDimensions.
Variable loadImage : string -> option ImageData.t.
Variable getContext2d : bool.
Variable cropToDataURL : ImageData.t -> GridCell.t -> string.

(** Only [img.width] and [img.height] are read; no canvas is involved. *)
Definition detectGridWithDimensions (imageDataUrl : string) (rows cols : Z)
  : Promise GridDetectionResult.t :=
  match loadImage imageDataUrl with
  | None => Rejected "Failed to load image"%string
  | Some img =>
      Resolved (createGridForDimensions_binary64
                  (ImageData.width img) (ImageData.height img) rows cols)
  end.

Definition splitWithDimensions (imageDataUrl : string) (rows cols : Z)
  : Promise (GridDetectionResult.t * list string) :=
  await (detectGridWithDimensions imageDataUrl rows cols) (fun grid =>
  await (splitImage loadImage getContext2d cropToDataURL imageDataUrl grid)
        (fun images =>
  Resolved (grid, images))).
End BrowserDimensions.

(** A 4 by 4 image of one grey. *)
Definition grey_square : ImageData.t :=
  ImageData.mk 4 4 (flat_map (fun _ => [128; 128; 128; 255]) (seq 0 16)).

(** * Properties *)

(** ** Loops and lists *)

Lemma In_range (i n : Z) : In i (range n) <-> 0 <= i < n.
Proof.
  unfold range. rewrite in_map_iff. split.
  - intros [k [<- Hk]]. apply in_seq in Hk. lia.
  - intros H. exists (Z.to_nat i). split; [lia | apply in_seq; lia].
Qed.

Lemma In_range_incl (i lo hi : Z) : In i (range_incl lo hi) <-> lo <= i <= hi.
Proof.
  unfold range_incl. rewrite in_map_iff. split.
  - intros [k [<- Hk]]. apply in_seq in Hk. lia.
  - intros H. exists (Z.to_nat (i - lo)). split; [lia | apply in_seq; lia].
Qed.

Lemma length_range (n : Z) : length (range n) = Z.to_nat n.
Proof. unfold range. now rewrite length_map, length_seq. Qed.

Lemma nth_error_range (n : Z) (k : nat) :
  (k < Z.to_nat n)%nat -> nth_error (range n) k = Some (Z.of_nat k).
Proof.
  intros H. unfold range. rewrite nth_error_map, nth_error_seq.
  destruct (Nat.ltb_spec k (Z.to_nat n)); [reflexivity | lia].
Qed.

(** Position [i * n + j] of a concatenation of blocks of length [n]. *)
Lemma nth_error_blocks {A B : Type} (f : A -> list B) (n : nat) (l : list A) :
  (forall a, In a l -> length (f a) = n) ->
  forall i j a, (j < n)%nat -> nth_error l i = Some a ->
  nth_error (flat_map f l) (i * n + j) = nth_error (f a) j.
Proof.
  induction l as [|b l IH]; intros Hlen i j a Hj Hi.
  - destruct i; discriminate.
  - cbn [flat_map]. destruct i as [|i].
    + injection Hi as ->. cbn [Nat.mul Nat.add].
      apply nth_error_app1. rewrite Hlen; [exact Hj | now left].
    + cbn [nth_error] in Hi. rewrite nth_error_app2.
      * rewrite (Hlen b) by now left.
        replace (S i * n + j - n)%nat with (i * n + j)%nat by lia.
        apply IH; auto. intros a' Ha'. apply Hlen. now right.
      * rewrite (Hlen b) by now left. lia.
Qed.

Lemma length_blocks {A B : Type} (f : A -> list B) (n : nat) (l : list A) :
  (forall a, In a l -> length (f a) = n) ->
  length (flat_map f l) = (length l * n)%nat.
Proof.
  induction l as [|b l IH]; intros Hlen; [reflexivity|].
  cbn [flat_map length]. rewrite length_app, IH, (Hlen b).
  - lia.
  - now left.
  - intros a Ha. apply Hlen. now right.
Qed.

(** ** Rounding *)

Lemma Qfloor_make (a : Z) (p : positive) : Qfloor (a # p) = a / Z.pos p.
Proof. reflexivity. Qed.

(** [Math.round(c * (w / n))] in integer arithmetic. *)
Lemma Math_round_scaled (c w n : Z) :
  0 < n ->
  Math_round (inject_Z c * (inject_Z w / inject_Z n)) = (2 * c * w + n) / (2 * n).
Proof.
  intros Hn. destruct n as [|p|p]; try lia.
  unfold Math_round.
  assert (E : (inject_Z c * (inject_Z w / inject_Z (Z.pos p)) + (1 # 2)
               == (2 * c * w + Z.pos p) # (2 * p))%Q).
  { unfold Qeq, Qdiv, Qmult, Qplus, Qinv, inject_Z; cbn [Qnum Qden].
    rewrite ?Pos2Z.inj_mul; change (Z.pos 2) with 2. ring. }
  rewrite E. rewrite Qfloor_make. reflexivity.
Qed.

Lemma Math_round_quot (w n : Z) :
  0 < n ->
  Math_round (inject_Z w / inject_Z n) = (2 * w + n) / (2 * n).
Proof.
  intros Hn. destruct n as [|p|p]; try lia.
  unfold Math_round.
  assert (E : (inject_Z w / inject_Z (Z.pos p) + (1 # 2)
               == (2 * w + Z.pos p) # (2 * p))%Q).
  { unfold Qeq, Qdiv, Qmult, Qplus, Qinv, inject_Z; cbn [Qnum Qden].
    rewrite ?Pos2Z.inj_mul; change (Z.pos 2) with 2. ring. }
  rewrite E. rewrite Qfloor_make. reflexivity.
Qed.

(** The two inequalities that pin down a rounded quotient. *)
Lemma round_bounds (a n : Z) :
  0 < n ->
  let r := (2 * a + n) / (2 * n) in
  2 * n * r <= 2 * a + n < 2 * n * (r + 1).
Proof.
  intros Hn r. subst r.
  pose proof (Z.mul_div_le (2 * a + n) (2 * n) ltac:(lia)).
  pose proof (Z.mul_succ_div_gt (2 * a + n) (2 * n) ltac:(lia)).
  lia.
Qed.

Section Axis.
Variables (w n : Z).
Hypothesis (Hw : 1 <= w) (Hn : 1 <= n).

Lemma axis_start_nonneg c : 0 <= c -> 0 <= axis_start w n c.
Proof.
  intros Hc. unfold axis_start. apply Z.div_pos; nia.
Qed.

Lemma axis_extent_nonneg : 0 <= axis_extent w n.
Proof. unfold axis_extent. apply Z.div_pos; nia. Qed.

Lemma axis_extent_pos : 0 < axis_extent w n <-> n <= 2 * w.
Proof.
  unfold axis_extent.
  pose proof (round_bounds w n ltac:(lia)) as H. cbv zeta in H.
  split; intros; nia.
Qed.

Lemma axis_overshoot c : 0 <= c < n -> axis_start w n c + axis_extent w n <= w + 1.
Proof.
  intros Hc. unfold axis_start, axis_extent.
  pose proof (round_bounds w n ltac:(lia)) as H1.
  pose proof (round_bounds (c * w) n ltac:(lia)) as H2.
  cbv zeta in H1, H2.
  replace (2 * (c * w)) with (2 * c * w) in H2 by ring.
  nia.
Qed.

(** Pixel [p] is inside, or right behind, the cell of index
    [floor(p * n / w)]. *)
Lemma axis_cover p :
  0 <= p < w ->
  let c := p * n / w in
  0 <= c < n /\ axis_start w n c <= p <= axis_start w n c + axis_extent w n.
Proof.
  intros Hp c.
  assert (Hc : c * w <= p * n < (c + 1) * w).
  { subst c.
    pose proof (Z.mul_div_le (p * n) w ltac:(lia)).
    pose proof (Z.mul_succ_div_gt (p * n) w ltac:(lia)).
    lia. }
  assert (Hc0 : 0 <= c) by (subst c; apply Z.div_pos; nia).
  assert (Hcn : c < n) by nia.
  unfold axis_start, axis_extent.
  pose proof (round_bounds w n ltac:(lia)) as H1.
  pose proof (round_bounds (c * w) n ltac:(lia)) as H2.
  cbv zeta in H1, H2.
  replace (2 * (c * w)) with (2 * c * w) in H2 by ring.
  repeat split; try lia; nia.
Qed.
End Axis.

(** ** The regular partition *)

Lemma createGridForDimensions_cells (w h rows cols : Z) :
  GridDetectionResult.cells (createGridForDimensions w h rows cols) =
  flat_map (fun row => map (gridCellAt w h rows cols row) (range cols))
           (range rows).
Proof. reflexivity. Qed.

Lemma In_createGridForDimensions (w h rows cols : Z) (c : GridCell.t) :
  In c (GridDetectionResult.cells (createGridForDimensions w h rows cols)) <->
  exists row col,
    0 <= row < rows /\ 0 <= col < cols /\ c = gridCellAt w h rows cols row col.
Proof.
  rewrite createGridForDimensions_cells, in_flat_map. split.
  - intros [row [Hrow Hc]]. apply in_map_iff in Hc.
    destruct Hc as [col [<- Hcol]].
    exists row, col. rewrite In_range in Hrow, Hcol. auto.
  - intros [row [col [Hrow [Hcol ->]]]].
    exists row. split; [now apply In_range|].
    apply in_map_iff. exists col. split; [reflexivity | now apply In_range].
Qed.

Lemma gridCellAt_near_bounds (w h rows cols row col : Z) :
  1 <= w -> 1 <= h -> 0 <= row < rows -> 0 <= col < cols ->
  cell_near_bounds w h rows cols (gridCellAt w h rows cols row col).
Proof.
  intros Hw Hh Hrow Hcol.
  unfold cell_near_bounds, gridCellAt; cbn [GridCell.x GridCell.y GridCell.width GridCell.height].
  rewrite !Math_round_scaled, !Math_round_quot by lia.
  fold (axis_start w cols col) (axis_start h rows row)
       (axis_extent w cols) (axis_extent h rows).
  pose proof (axis_start_nonneg w cols ltac:(lia) ltac:(lia) col ltac:(lia)).
  pose proof (axis_start_nonneg h rows ltac:(lia) ltac:(lia) row ltac:(lia)).
  pose proof (axis_overshoot w cols ltac:(lia) ltac:(lia) col Hcol).
  pose proof (axis_overshoot h rows ltac:(lia) ltac:(lia) row Hrow).
  pose proof (axis_extent_nonneg w cols ltac:(lia) ltac:(lia)).
  pose proof (axis_extent_nonneg h rows ltac:(lia) ltac:(lia)).
  pose proof (axis_extent_pos w cols ltac:(lia) ltac:(lia)).
  pose proof (axis_extent_pos h rows ltac:(lia) ltac:(lia)).
  tauto.
Qed.

Lemma createGridForDimensions_near_bounds (w h rows cols : Z) :
  1 <= w -> 1 <= h ->
  Forall (cell_near_bounds w h rows cols)
         (GridDetectionResult.cells (createGridForDimensions w h rows cols)).
Proof.
  intros Hw Hh. apply Forall_forall. intros c Hc.
  apply In_createGridForDimensions in Hc.
  destruct Hc as [row [col [Hrow [Hcol ->]]]].
  now apply gridCellAt_near_bounds.
Qed.

Lemma createGridForDimensions_binary64_cells (w h rows cols : Z) :
  GridDetectionResult.cells (createGridForDimensions_binary64 w h rows cols) =
  flat_map (fun row => map (gridCellAt_binary64 w h rows cols row) (range cols))
           (range rows).
Proof. reflexivity. Qed.

Lemma createGridForDimensions_binary64_length (w h rows cols : Z) :
  length (GridDetectionResult.cells (createGridForDimensions_binary64 w h rows cols))
  = (Z.to_nat rows * Z.to_nat cols)%nat.
Proof.
  rewrite createGridForDimensions_binary64_cells.
  rewrite (length_blocks _ (Z.to_nat cols)).
  - now rewrite length_range.
  - intros a _. now rewrite length_map, length_range.
Qed.

Lemma createGridForDimensions_binary64_nth (w h rows cols row col : Z) :
  0 <= row < rows -> 0 <= col < cols ->
  nth_error (GridDetectionResult.cells (createGridForDimensions_binary64 w h rows cols))
            (Z.to_nat (row * cols + col)) =
  Some (gridCellAt_binary64 w h rows cols row col).
Proof.
  intros Hrow Hcol. rewrite createGridForDimensions_binary64_cells.
  assert (Hblock : forall a, In a (range rows) ->
            length (map (gridCellAt_binary64 w h rows cols a) (range cols))
            = Z.to_nat cols).
  { intros a _. now rewrite length_map, length_range. }
  replace (Z.to_nat (row * cols + col))
    with (Z.to_nat row * Z.to_nat cols + Z.to_nat col)%nat by nia.
  rewrite (nth_error_blocks _ _ _ Hblock _ _ (Z.of_nat (Z.to_nat row))).
  - rewrite nth_error_map, nth_error_range by lia.
    cbn [option_map]. rewrite !Z2Nat.id by lia. reflexivity.
  - lia.
  - apply nth_error_range. lia.
Qed.

(** C8 (as stated) fails: for a 61 by 1 image cut into 1 row and 14
    columns, [61 / 14] is 4.357142857142857 and 7 times that is
    30.499999999999996 in binary64, so the cell of column 7 starts at
    x = 30, whereas [round(7 * 61 / 14) = round(30.5)] is 31. *)
Lemma createGridForDimensions_binary64_tie :
  nth_error (GridDetectionResult.cells (createGridForDimensions_binary64 61 1 1 14))
            (Z.to_nat (0 * 14 + 7)) =
  Some {| GridCell.x := 30; GridCell.y := 0;
          GridCell.width := 4; GridCell.height := 1 |} /\
  Math_round (inject_Z 7 * (inject_Z 61 / inject_Z 14)) = 31.
Proof. split; vm_compute; reflexivity. Qed.

(** C8 (as amended): for all w, h, rows, cols >= 1,
    [createGridForDimensions] yields confidence 1 and exactly rows * cols
    cells in row-major order; the cell at position [row * cols + col] is
    [{x: Math.round(col * (w / cols)), y: Math.round(row * (h / rows)),
      width: Math.round(w / cols), height: Math.round(h / rows)}], the
    quotients and the products being binary64 numbers. *)
Theorem createGridForDimensions_row_major (w h rows cols : Z) :
  1 <= w -> 1 <= h -> 1 <= rows -> 1 <= cols ->
  let g := createGridForDimensions_binary64 w h rows cols in
  GridDetectionResult.confidence g = 1%R /\
  GridDetectionResult.rows g = rows /\
  GridDetectionResult.cols g = cols /\
  Z.of_nat (length (GridDetectionResult.cells g)) = rows * cols /\
  forall row col,
    0 <= row < rows -> 0 <= col < cols ->
    nth_error (GridDetectionResult.cells g) (Z.to_nat (row * cols + col)) =
    Some {| GridCell.x :=
              Math_round64 (PrimFloat.mul (Number_of_Z col)
                              (PrimFloat.div (Number_of_Z w) (Number_of_Z cols)));
            GridCell.y :=
              Math_round64 (PrimFloat.mul (Number_of_Z row)
                              (PrimFloat.div (Number_of_Z h) (Number_of_Z rows)));
            GridCell.width :=
              Math_round64 (PrimFloat.div (Number_of_Z w) (Number_of_Z cols));
            GridCell.height :=
              Math_round64 (PrimFloat.div (Number_of_Z h) (Number_of_Z rows)) |}.
Proof.
  intros _ _ Hrows Hcols g. repeat split.
  - subst g. rewrite createGridForDimensions_binary64_length. nia.
  - intros row col Hrow Hcol. subst g.
    now rewrite createGridForDimensions_binary64_nth.
Qed.

Lemma createGridForDimensions_row_major_witness :
  nth_error (GridDetectionResult.cells (createGridForDimensions_binary64 5 5 2 2))
            (Z.to_nat (1 * 2 + 1)) =
  Some {| GridCell.x := 3; GridCell.y := 3;
          GridCell.width := 3; GridCell.height := 3 |}.
Proof.
  apply (createGridForDimensions_row_major 5 5 2 2); lia.
Defined.

(** C9: for all w, h, rows, cols >= 1 the cells of
    [createGridForDimensions] cover [0,w) x [0,h) up to one pixel of
    rounding: every pixel position is within 1px of one cell along both
    axes, and no cell reaches more than 1px beyond an image edge. *)
Theorem createGridForDimensions_covers (w h rows cols : Z) :
  1 <= w -> 1 <= h -> 1 <= rows -> 1 <= cols ->
  let cells := GridDetectionResult.cells (createGridForDimensions w h rows cols) in
  (forall px py,
      0 <= px < w -> 0 <= py < h ->
      exists c, In c cells /\
                within_1px px (GridCell.x c) (GridCell.width c) /\
                within_1px py (GridCell.y c) (GridCell.height c)) /\
  (forall c, In c cells ->
             -1 <= GridCell.x c /\ GridCell.x c + GridCell.width c <= w + 1 /\
             -1 <= GridCell.y c /\ GridCell.y c + GridCell.height c <= h + 1).
Proof.
  intros Hw Hh Hrows Hcols cells. split.
  - intros px py Hpx Hpy.
    destruct (axis_cover w cols Hw Hcols px Hpx) as [Hcol Hx].
    destruct (axis_cover h rows Hh Hrows py Hpy) as [Hrow Hy].
    exists (gridCellAt w h rows cols (py * rows / h) (px * cols / w)).
    split.
    + apply In_createGridForDimensions. eauto.
    + unfold within_1px, gridCellAt;
        cbn [GridCell.x GridCell.y GridCell.width GridCell.height].
      rewrite !Math_round_scaled, !Math_round_quot by lia.
      fold (axis_start w cols (px * cols / w)) (axis_start h rows (py * rows / h))
           (axis_extent w cols) (axis_extent h rows).
      lia.
  - intros c Hc.
    pose proof (createGridForDimensions_near_bounds w h rows cols Hw Hh) as F.
    rewrite Forall_forall in F. specialize (F c Hc).
    unfold cell_near_bounds in F. lia.
Qed.

Lemma createGridForDimensions_covers_witness :
  exists c, In c (GridDetectionResult.cells (createGridForDimensions 5 5 2 2)) /\
            within_1px 2 (GridCell.x c) (GridCell.width c) /\
            within_1px 4 (GridCell.y c) (GridCell.height c).
Proof.
  apply (createGridForDimensions_covers 5 5 2 2); lia.
Defined.

(** ** The interval scan *)

Section Scan.
Variable isGapFn : Z -> bool.

Lemma interval_eq (iv : Interval.t) (s e z : Z) :
  Interval.start iv = s -> Interval.end_ iv = e -> Interval.size iv = z ->
  iv = Interval.mk s e z.
Proof. destruct iv; cbn; congruence. Qed.

(** Two runs that start at a run boundary and reach the same position
    start at the same place. *)
Lemma run_start_unique (s1 s2 e : Z) :
  0 <= s1 <= e -> 0 <= s2 <= e ->
  (forall i, s1 <= i <= e -> isGapFn i = false) ->
  (forall i, s2 <= i <= e -> isGapFn i = false) ->
  (s1 = 0 \/ isGapFn (s1 - 1) = true) ->
  (s2 = 0 \/ isGapFn (s2 - 1) = true) ->
  s1 = s2.
Proof.
  intros H1 H2 F1 F2 B1 B2.
  destruct (Z.lt_trichotomy s1 s2) as [L | [E | L]]; [exfalso | exact E | exfalso].
  - destruct B2 as [B2 | B2]; [lia|].
    rewrite F1 in B2 by lia. discriminate.
  - destruct B1 as [B1 | B1]; [lia|].
    rewrite F2 in B1 by lia. discriminate.
Qed.

Lemma scan_inv_init : scan_inv isGapFn 0 ([], false, 0).
Proof.
  cbn. split; [|now left].
  intros iv. split; [intros [] | intros H].
  unfold closed_run in H. lia.
Qed.

Lemma scan_inv_step (k : Z) (st : list Interval.t * bool * Z) :
  0 <= k -> scan_inv isGapFn k st ->
  scan_inv isGapFn (k + 1) (scan_step isGapFn st k).
Proof.
  intros Hk. destruct st as [[intervals inContent] start].
  unfold scan_inv, scan_step. intros [Hin Hcur].
  destruct (isGapFn k) eqn:Gk; cbn [negb].
  - (* a gap at k *)
    destruct inContent.
    + destruct Hcur as [Hs [Hrun Hleft]]. split.
      * intros iv. rewrite in_app_iff, Hin. cbn [In]. split.
        -- intros [C | [<- | []]].
           ++ unfold closed_run in *. intuition lia.
           ++ unfold closed_run; cbn. repeat split; try lia; auto.
              ** intros i Hi. apply Hrun. lia.
              ** now replace (k - 1 + 1) with k by lia.
        -- intros C. unfold closed_run in C.
           destruct C as (C1 & C2 & C3 & C4 & C5 & C6 & C7).
           destruct (Z.eq_dec (Interval.end_ iv + 1) k) as [E | NE].
           ++ right. left. symmetry.
              assert (Interval.start iv = start).
              { apply (run_start_unique _ _ (k - 1)); auto; try lia.
                - intros i Hi. apply C4. lia.
                - intros i Hi. apply Hrun. lia. }
              apply interval_eq; lia.
           ++ left. unfold closed_run. repeat split; auto; lia.
      * right. now replace (k + 1 - 1) with k by lia.
    + split.
      * intros iv. rewrite Hin. unfold closed_run. split.
        -- intuition lia.
        -- intros (C1 & C2 & C3 & C4 & C5 & C6 & C7).
           repeat split; auto.
           destruct (Z.eq_dec (Interval.end_ iv + 1) k) as [E | NE]; [|lia].
           exfalso. destruct Hcur as [-> | G]; [lia|].
           rewrite C4 in G by lia. discriminate.
      * right. now replace (k + 1 - 1) with k by lia.
  - (* content at k *)
    assert (Hin' : forall iv, In iv intervals <-> closed_run isGapFn (k + 1) iv).
    { intros iv. rewrite Hin. unfold closed_run. split.
      - intuition lia.
      - intros (C1 & C2 & C3 & C4 & C5 & C6 & C7).
        repeat split; auto.
        destruct (Z.eq_dec (Interval.end_ iv + 1) k) as [E | NE]; [|lia].
        rewrite E in C7. congruence. }
    destruct inContent; cbn [negb].
    + destruct Hcur as [Hs [Hrun Hleft]]. split; [exact Hin'|].
      repeat split; try lia; auto.
      intros i Hi. destruct (Z.eq_dec i k) as [-> | NE]; [exact Gk|].
      apply Hrun. lia.
    + split; [exact Hin'|].
      repeat split; try lia.
      * intros i Hi. now replace i with k by lia.
      * destruct Hcur as [-> | G]; [now left | now right].
Qed.

Lemma scan_inv_loop (n : nat) :
  scan_inv isGapFn (Z.of_nat n)
    (fold_left (scan_step isGapFn) (map Z.of_nat (seq 0 n)) ([], false, 0)).
Proof.
  induction n as [|n IH].
  - exact scan_inv_init.
  - rewrite seq_S, map_app, fold_left_app. cbn [map fold_left Nat.add].
    replace (Z.of_nat (S n)) with (Z.of_nat n + 1) by lia.
    apply scan_inv_step; [lia | exact IH].
Qed.

(** Before the noise filter, the scan returns exactly the maximal content
    runs. *)
Lemma scan_finish_spec (length : Z) (iv : Interval.t) :
  In iv (scan_finish length
           (fold_left (scan_step isGapFn) (range length) ([], false, 0)))
  <-> content_run length isGapFn iv.
Proof.
  unfold range.
  pose proof (scan_inv_loop (Z.to_nat length)) as Inv.
  destruct (fold_left _ _ _) as [[intervals inContent] start].
  destruct (Z.le_gt_cases 0 length) as [Hlen | Hlen].
  2:{ (* nothing to scan *)
      replace (Z.to_nat length) with 0%nat in Inv by lia.
      cbn in Inv. destruct Inv as [Hin Hcur].
      destruct inContent; [lia|]. cbn. rewrite Hin.
      unfold closed_run, content_run. split; intros; lia. }
  rewrite Z2Nat.id in Inv by lia.
  destruct Inv as [Hin Hcur]. unfold scan_finish.
  destruct inContent.
  - destruct Hcur as [Hs [Hrun Hleft]].
    rewrite in_app_iff, Hin. cbn [In]. split.
    + intros [C | [<- | []]].
      * unfold closed_run in C. unfold content_run. intuition lia.
      * unfold content_run; cbn. repeat split; try lia; auto.
        intros i Hi. apply Hrun. lia.
    + intros (C1 & C2 & C3 & C4 & C5 & C6 & C7).
      destruct (Z.eq_dec (Interval.end_ iv) (length - 1)) as [E | NE].
      * right. left. symmetry.
        assert (Interval.start iv = start).
        { apply (run_start_unique _ _ (length - 1)); auto; try lia.
          - intros i Hi. apply C5. lia.
          - intros i Hi. apply Hrun. lia. }
        apply interval_eq; lia.
      * left. unfold closed_run. destruct C7 as [C7 | C7]; [lia|].
        repeat split; auto; lia.
  - rewrite Hin. split.
    + intros C. unfold closed_run in C. unfold content_run. intuition lia.
    + intros (C1 & C2 & C3 & C4 & C5 & C6 & C7).
      destruct C7 as [C7 | C7].
      * exfalso. destruct Hcur as [-> | G]; [lia|].
        rewrite <- C7 in G. rewrite C5 in G by lia. discriminate.
      * unfold closed_run. repeat split; auto.
        assert (Interval.end_ iv + 1 <> length); [|lia].
        intros E. destruct Hcur as [-> | G]; [lia|].
        replace (length - 1) with (Interval.end_ iv) in G by lia.
        rewrite C5 in G by lia. discriminate.
Qed.
End Scan.

Lemma Qltb_lt (a b : Q) : Qltb a b = true <-> (a < b)%Q.
Proof.
  unfold Qltb. rewrite negb_true_iff. split.
  - intros H. apply Qnot_le_lt. intros L.
    apply Qle_bool_iff in L. congruence.
  - intros H. destruct (Qle_bool b a) eqn:E; [|reflexivity].
    apply Qle_bool_iff in E. exfalso. now apply (Qlt_not_le a b).
Qed.

Lemma not_tiny_retained (length : Z) (iv : Interval.t) :
  not_tiny length iv = true <-> retained length iv.
Proof. apply Qltb_lt. Qed.

(** [findIntervals] returns exactly the retained maximal content runs. *)
Lemma findIntervals_spec (length : Z) (isGapFn : Z -> bool) (iv : Interval.t) :
  In iv (findIntervals length isGapFn) <->
  content_run length isGapFn iv /\ retained length iv.
Proof.
  unfold findIntervals. rewrite filter_In, scan_finish_spec, not_tiny_retained.
  reflexivity.
Qed.

Lemma findIntervals_bounds (length : Z) (isGapFn : Z -> bool) (iv : Interval.t) :
  In iv (findIntervals length isGapFn) ->
  0 <= Interval.start iv /\ 0 < Interval.size iv /\
  Interval.start iv + Interval.size iv <= length.
Proof.
  intros H. apply findIntervals_spec in H. destruct H as [C _].
  unfold content_run in C. lia.
Qed.

(** ** Sorting *)

Section ArraySortFacts.
Context {A : Type} (before : A -> A -> bool).

Lemma sort_insert_perm (v : A) (l : list A) :
  Permutation (v :: l) (sort_insert before v l).
Proof.
  induction l as [|e l IH]; cbn [sort_insert]; [reflexivity|].
  destruct (before e v); [|reflexivity].
  rewrite perm_swap. now constructor.
Qed.

Lemma Array_sort_perm (l : list A) : Permutation l (Array_sort before l).
Proof.
  induction l as [|v l IH]; cbn [Array_sort fold_right]; [constructor|].
  fold (Array_sort before l).
  rewrite <- sort_insert_perm. now constructor.
Qed.

Lemma Array_sort_length (l : list A) : length (Array_sort before l) = length l.
Proof. symmetry. apply Permutation_length, Array_sort_perm. Qed.

Hypothesis before_asym : forall a b, before a b = true -> before b a = false.

Lemma sort_insert_hd (a v : A) (l : list A) :
  not_after before a v -> HdRel (not_after before) a l ->
  HdRel (not_after before) a (sort_insert before v l).
Proof.
  intros Hv Hl. destruct l as [|e l]; cbn [sort_insert].
  - now constructor.
  - destruct (before e v); constructor; [now inversion Hl | exact Hv].
Qed.

Lemma sort_insert_sorted (v : A) (l : list A) :
  Sorted (not_after before) l -> Sorted (not_after before) (sort_insert before v l).
Proof.
  induction 1 as [|e l Hs IH Hd]; cbn [sort_insert].
  - repeat constructor.
  - destruct (before e v) eqn:E.
    + constructor; [exact IH|].
      apply sort_insert_hd; [|exact Hd].
      unfold not_after. now apply before_asym.
    + constructor; [now constructor|]. now constructor.
Qed.

Lemma Array_sort_sorted (l : list A) : Sorted (not_after before) (Array_sort before l).
Proof.
  induction l as [|v l IH]; cbn [Array_sort fold_right]; [constructor|].
  now apply sort_insert_sorted.
Qed.
End ArraySortFacts.

Lemma Sorted_weaken {A : Type} (R R' : A -> A -> Prop) (l : list A) :
  (forall a b, R a b -> R' a b) -> Sorted R l -> Sorted R' l.
Proof.
  intros HR. induction 1 as [|a l Hs IH Hd]; constructor; [exact IH|].
  destruct Hd; constructor. now apply HR.
Qed.

Lemma Array_sort_numeric_asc (l : list Z) :
  StronglySorted Z.le (Array_sort numeric_asc l).
Proof.
  apply Sorted_StronglySorted; [intros a b c; apply Z.le_trans|].
  apply (Sorted_weaken (not_after numeric_asc)).
  - unfold not_after, numeric_asc. intros a b H.
    apply Z.ltb_ge in H. lia.
  - apply Array_sort_sorted. unfold numeric_asc. intros a b H.
    apply Z.ltb_lt in H. apply Z.ltb_ge. lia.
Qed.

Lemma Permutation_filter_length {A : Type} (f : A -> bool) (l l' : list A) :
  Permutation l l' -> length (filter f l) = length (filter f l').
Proof.
  induction 1 as [| a l l' _ IH | a b l | l l' l'' _ IH1 _ IH2]; cbn [filter].
  - reflexivity.
  - destruct (f a); cbn [length]; congruence.
  - destruct (f a), (f b); reflexivity.
  - congruence.
Qed.

Lemma filter_length_mono {A : Type} (f g : A -> bool) (l : list A) :
  (forall a, In a l -> f a = true -> g a = true) ->
  (length (filter f l) <= length (filter g l))%nat.
Proof.
  induction l as [|a l IH]; intros H; [reflexivity|].
  cbn [filter].
  assert (IH' : (length (filter f l) <= length (filter g l))%nat).
  { apply IH. intros b Hb. apply H. now right. }
  destruct (f a) eqn:Fa.
  - rewrite (H a) by (auto; now left). cbn [length]. lia.
  - destruct (g a); cbn [length]; lia.
Qed.

Lemma filter_map_length {A B : Type} (f : B -> bool) (g : A -> B) (l : list A) :
  length (filter f (map g l)) = length (filter (fun a => f (g a)) l).
Proof.
  induction l as [|a l IH]; [reflexivity|].
  cbn [map filter]. destruct (f (g a)); cbn [length]; congruence.
Qed.

(** In an ascending list, everything from position [k] on is at least
    the element at [k]. *)
Lemma sorted_upper_part (s : list Z) (k : nat) (m : Z) :
  StronglySorted Z.le s -> nth_error s k = Some m ->
  (length s - k <= length (filter (fun a => (m <=? a)%Z) s))%nat.
Proof.
  intros Hs. revert k. induction Hs as [|a s Hs IH Hall]; intros k Hk.
  - destruct k; discriminate.
  - destruct k as [|k]; cbn [nth_error] in Hk.
    + injection Hk as ->. cbn [filter]. rewrite Z.leb_refl. cbn [length].
      assert (filter (fun a => m <=? a) s = s) as ->; [|lia].
      apply forallb_filter_id. apply forallb_forall. intros b Hb.
      rewrite Forall_forall in Hall. apply Z.leb_le. now apply Hall.
    + specialize (IH k Hk). cbn [filter length].
      destruct (m <=? a); cbn [length]; lia.
Qed.

(** ** The projection gap detector *)

Lemma nil_iff_no_member {A : Type} (l : list A) (P : A -> Prop) :
  (forall a, In a l <-> P a) -> (l = [] <-> ~ exists a, P a).
Proof.
  intros H. split.
  - intros -> [a Ha]. now apply H in Ha.
  - intros N. destruct l as [|a l]; [reflexivity|].
    exfalso. apply N. exists a. apply H. now left.
Qed.

Lemma length_zero_nil {A : Type} (l : list A) : Nat.eqb (length l) 0 = true <-> l = [].
Proof. destruct l; cbn; split; congruence. Qed.

Lemma detectGridWithGutters_pixels_none (img : ImageData.t) :
  detectGridWithGutters_pixels img = None <->
  findIntervals (ImageData.height img) (isRowGap img) = [] \/
  findIntervals (ImageData.width img) (isColumnGap img) = [].
Proof.
  unfold detectGridWithGutters_pixels.
  rewrite <- !length_zero_nil, <- orb_true_iff.
  destruct (_ || _)%bool; split; congruence.
Qed.

Lemma detectGridWithGutters_pixels_some (img : ImageData.t) (g : GridDetectionResult.t) :
  detectGridWithGutters_pixels img = Some g ->
  let rowIntervals := findIntervals (ImageData.height img) (isRowGap img) in
  let colIntervals := findIntervals (ImageData.width img) (isColumnGap img) in
  let cells := gutter_cells rowIntervals colIntervals in
  rowIntervals <> [] /\ colIntervals <> [] /\
  g = GridDetectionResult.mk
        (Z.of_nat (length rowIntervals)) (Z.of_nat (length colIntervals))
        (filter (big_enough (medianArea cells)) cells) 0.95%R.
Proof.
  intros H. cbv zeta. unfold detectGridWithGutters_pixels in H.
  destruct (Nat.eqb (length (findIntervals (ImageData.height img) (isRowGap img))) 0)
    eqn:Er; [discriminate|].
  destruct (Nat.eqb (length (findIntervals (ImageData.width img) (isColumnGap img))) 0)
    eqn:Ec; [discriminate|].
  cbn [orb] in H. injection H as <-.
  repeat split.
  - intros E. apply length_zero_nil in E. congruence.
  - intros E. apply length_zero_nil in E. congruence.
Qed.

(** C3: on a decoded pixel buffer the gutter detector returns none if and
    only if some axis has no retained content interval, where column [x]
    is a gap exactly when [colSums[x] / height < 30] (rows: [rowSums[y] /
    width < 30]), content intervals are the maximal runs of non-gap
    positions, and an interval is retained exactly when its size exceeds
    5% of the axis length. *)
Theorem detectGridWithGutters_fails_iff (img : ImageData.t) :
  let width := ImageData.width img in
  let height := ImageData.height img in
  (detectGridWithGutters_pixels img = None <->
   (~ exists iv, content_run height (isRowGap img) iv /\ retained height iv) \/
   (~ exists iv, content_run width (isColumnGap img) iv /\ retained width iv)) /\
  (forall x, isColumnGap img x = true <-> (colSums img x / inject_Z height < 30)%Q) /\
  (forall y, isRowGap img y = true <-> (rowSums img y / inject_Z width < 30)%Q) /\
  (forall iv, In iv (findIntervals width (isColumnGap img)) <->
              content_run width (isColumnGap img) iv /\ retained width iv) /\
  (forall iv, In iv (findIntervals height (isRowGap img)) <->
              content_run height (isRowGap img) iv /\ retained height iv).
Proof.
  intros width height. split; [split|].
  - intros H. apply detectGridWithGutters_pixels_none in H.
    destruct H as [H | H]; [left | right];
      apply (proj1 (nil_iff_no_member _ _ (findIntervals_spec _ _)) H).
  - intros H. apply detectGridWithGutters_pixels_none.
    destruct H as [H | H]; [left | right];
      apply (proj2 (nil_iff_no_member _ _ (findIntervals_spec _ _)) H).
  - split; [intros x; apply Qltb_lt|].
    split; [intros y; apply Qltb_lt|].
    split; intros iv; apply findIntervals_spec.
Qed.

(** *** Cells of a successful detection *)

Lemma gutter_cells_length (rowIntervals colIntervals : list Interval.t) :
  length (gutter_cells rowIntervals colIntervals) =
  (length rowIntervals * length colIntervals)%nat.
Proof.
  unfold gutter_cells. apply length_blocks.
  intros a _. apply length_map.
Qed.

Lemma gutter_cells_nth (rowIntervals colIntervals : list Interval.t)
      (i j : nat) (rowIv colIv : Interval.t) :
  nth_error rowIntervals i = Some rowIv ->
  nth_error colIntervals j = Some colIv ->
  nth_error (gutter_cells rowIntervals colIntervals) (i * length colIntervals + j) =
  Some {| GridCell.x := Interval.start colIv; GridCell.y := Interval.start rowIv;
          GridCell.width := Interval.size colIv;
          GridCell.height := Interval.size rowIv |}.
Proof.
  intros Hi Hj. unfold gutter_cells.
  rewrite (nth_error_blocks _ (length colIntervals) _ (fun a _ => length_map _ _) i j rowIv).
  - rewrite nth_error_map, Hj. reflexivity.
  - apply nth_error_Some. congruence.
  - exact Hi.
Qed.

Lemma In_gutter_cells (rowIntervals colIntervals : list Interval.t) (c : GridCell.t) :
  In c (gutter_cells rowIntervals colIntervals) <->
  exists rowIv colIv,
    In rowIv rowIntervals /\ In colIv colIntervals /\
    c = GridCell.mk (Interval.start colIv) (Interval.start rowIv)
                    (Interval.size colIv) (Interval.size rowIv).
Proof.
  unfold gutter_cells. rewrite in_flat_map. split.
  - intros [rowIv [Hr Hc]]. apply in_map_iff in Hc.
    destruct Hc as [colIv [<- Hc]]. eauto.
  - intros [rowIv [colIv [Hr [Hc ->]]]]. exists rowIv. split; [exact Hr|].
    apply in_map_iff. eauto.
Qed.

Lemma big_enough_spec (median : Z) (c : GridCell.t) :
  big_enough median c = true <-> (inject_Z median * 0.5 < inject_Z (area c))%Q.
Proof. apply Qltb_lt. Qed.

Lemma big_enough_Z (median : Z) (c : GridCell.t) :
  big_enough median c = true <-> median < 2 * area c.
Proof.
  rewrite big_enough_spec.
  unfold Qlt, Qmult, inject_Z; cbn [Qnum Qden]. lia.
Qed.

(** The sorted areas and the median read at [floor(n / 2)]. *)
Lemma medianArea_spec (cells : list GridCell.t) :
  cells <> [] ->
  exists sorted,
    Permutation sorted (map area cells) /\
    StronglySorted Z.le sorted /\
    nth_error sorted (Nat.div (length cells) 2) = Some (medianArea cells).
Proof.
  intros Hne. exists (Array_sort numeric_asc (map area cells)).
  split; [symmetry; apply Array_sort_perm|].
  split; [apply Array_sort_numeric_asc|].
  unfold medianArea. rewrite Array_sort_length, length_map.
  apply nth_error_nth'. rewrite Array_sort_length, length_map.
  destruct cells as [|c cells]; [congruence|].
  apply Nat.div_lt; cbn [length]; lia.
Qed.

Lemma gutter_cells_area_pos (img : ImageData.t) (c : GridCell.t) :
  In c (gutter_cells (findIntervals (ImageData.height img) (isRowGap img))
                     (findIntervals (ImageData.width img) (isColumnGap img))) ->
  cell_in_bounds (ImageData.width img) (ImageData.height img) c /\
  0 <= GridCell.x c /\ 0 <= GridCell.y c /\ 0 < area c.
Proof.
  intros H. apply In_gutter_cells in H.
  destruct H as [rowIv [colIv [Hr [Hc ->]]]].
  apply findIntervals_bounds in Hr, Hc.
  unfold cell_in_bounds, area; cbn. repeat split; try lia; nia.
Qed.

(** C4: when the gutter detector succeeds, its cells are the row-major
    cross-product of row intervals by column intervals (cell =
    [{x: colIv.start, y: rowIv.start, width: colIv.size, height:
    rowIv.size}]), filtered to keep precisely the cells whose area is
    strictly above half the median area; the median is the element at
    index [floor(n / 2)] of the ascending-sorted list of all [n] areas;
    [rows] and [cols] are the interval counts before filtering and the
    confidence is 0.95. *)
Theorem detectGridWithGutters_cross_product (img : ImageData.t)
        (g : GridDetectionResult.t) :
  detectGridWithGutters_pixels img = Some g ->
  let rowIntervals := findIntervals (ImageData.height img) (isRowGap img) in
  let colIntervals := findIntervals (ImageData.width img) (isColumnGap img) in
  exists (raw : list GridCell.t) (sorted : list Z) (median : Z)
         (keep : GridCell.t -> bool),
    length raw = (length rowIntervals * length colIntervals)%nat /\
    (forall i j rowIv colIv,
        nth_error rowIntervals i = Some rowIv ->
        nth_error colIntervals j = Some colIv ->
        nth_error raw (i * length colIntervals + j) =
        Some {| GridCell.x := Interval.start colIv;
                GridCell.y := Interval.start rowIv;
                GridCell.width := Interval.size colIv;
                GridCell.height := Interval.size rowIv |}) /\
    Permutation sorted
      (map (fun c => GridCell.width c * GridCell.height c) raw) /\
    StronglySorted Z.le sorted /\
    nth_error sorted (Nat.div (length raw) 2) = Some median /\
    (forall c, keep c = true <->
               (inject_Z median * 0.5
                < inject_Z (GridCell.width c * GridCell.height c))%Q) /\
    GridDetectionResult.cells g = filter keep raw /\
    GridDetectionResult.rows g = Z.of_nat (length rowIntervals) /\
    GridDetectionResult.cols g = Z.of_nat (length colIntervals) /\
    GridDetectionResult.confidence g = 0.95%R.
Proof.
  intros H rowIntervals colIntervals.
  apply detectGridWithGutters_pixels_some in H. cbv zeta in H.
  fold rowIntervals colIntervals in H.
  destruct H as [Hr [Hc ->]].
  set (raw := gutter_cells rowIntervals colIntervals).
  assert (Hraw : raw <> []).
  { intros E. apply (f_equal (@length _)) in E.
    unfold raw in E. rewrite gutter_cells_length in E. cbn in E.
    destruct rowIntervals, colIntervals; cbn in E; congruence. }
  destruct (medianArea_spec raw Hraw) as [sorted [Hp [Hs Hm]]].
  exists raw, sorted, (medianArea raw), (big_enough (medianArea raw)).
  cbn [GridDetectionResult.cells GridDetectionResult.rows
       GridDetectionResult.cols GridDetectionResult.confidence].
  split; [apply gutter_cells_length|].
  split; [intros; now apply gutter_cells_nth|].
  split; [exact Hp|]. split; [exact Hs|]. split; [exact Hm|].
  split; [intros c; apply big_enough_spec|].
  repeat split.
Qed.

Lemma detectGridWithGutters_cross_product_witness :
  exists (raw : list GridCell.t) (sorted : list Z) (median : Z)
         (keep : GridCell.t -> bool),
    length raw = 2%nat /\
    Permutation sorted (map (fun c => GridCell.width c * GridCell.height c) raw) /\
    nth_error sorted (Nat.div (length raw) 2) = Some median /\
    [ GridCell.mk 0 0 1 1; GridCell.mk 2 0 1 1 ] = filter keep raw.
Proof.
  destruct (detectGridWithGutters_cross_product two_dots
              (GridDetectionResult.mk 1 2
                 [ GridCell.mk 0 0 1 1; GridCell.mk 2 0 1 1 ] 0.95%R)
              eq_refl)
    as (raw & sorted & median & keep & H1 & _ & H3 & _ & H5 & _ & H7 & _).
  exists raw, sorted, median, keep.
  exact (conj H1 (conj H3 (conj H5 H7))).
Defined.

(** C10: whenever the gutter detector succeeds, the returned cells are
    not empty: the median area is positive, every raw cell whose area is
    at least the median passes the filter, a cell of median area
    survives, and at least half of the raw cells are kept. *)
Theorem detectGridWithGutters_keeps_upper_half (img : ImageData.t)
        (g : GridDetectionResult.t) :
  detectGridWithGutters_pixels img = Some g ->
  let raw := gutter_cells (findIntervals (ImageData.height img) (isRowGap img))
                          (findIntervals (ImageData.width img) (isColumnGap img)) in
  let median := medianArea raw in
  GridDetectionResult.cells g <> [] /\
  0 < median /\
  (forall c, In c raw -> median <= area c -> In c (GridDetectionResult.cells g)) /\
  (exists c, In c (GridDetectionResult.cells g) /\ area c = median) /\
  (length raw <= 2 * length (GridDetectionResult.cells g))%nat.
Proof.
  intros H raw median.
  apply detectGridWithGutters_pixels_some in H. cbv zeta in H.
  fold raw in H. fold median in H. destruct H as [Hr [Hc ->]].
  cbn [GridDetectionResult.cells].
  assert (Hraw : raw <> []).
  { intros E. apply (f_equal (@length _)) in E.
    unfold raw in E. rewrite gutter_cells_length in E. cbn in E.
    destruct (findIntervals (ImageData.height img) (isRowGap img)),
             (findIntervals (ImageData.width img) (isColumnGap img));
      cbn in E; congruence. }
  destruct (medianArea_spec raw Hraw) as [sorted [Hp [Hs Hm]]].
  fold median in Hm.
  (* a raw cell has the median area *)
  assert (Hcell : exists c, In c raw /\ area c = median).
  { apply nth_error_In in Hm.
    apply (Permutation_in _ Hp) in Hm. apply in_map_iff in Hm.
    destruct Hm as [c [E Hc']]. eauto. }
  assert (Hpos : 0 < median).
  { destruct Hcell as [c [Hc' <-]]. now apply (gutter_cells_area_pos img). }
  assert (Hkeep : forall c, In c raw -> median <= area c ->
                            In c (filter (big_enough median) raw)).
  { intros c Hc' Hle. apply filter_In. split; [exact Hc'|].
    apply big_enough_Z. lia. }
  assert (Hex : exists c, In c (filter (big_enough median) raw) /\ area c = median).
  { destruct Hcell as [c [Hc' E]]. exists c. split; [|exact E].
    apply Hkeep; [exact Hc' | lia]. }
  split; [|split; [exact Hpos | split; [exact Hkeep | split; [exact Hex|]]]].
  - destruct Hex as [c [Hc' _]]. intros E. rewrite E in Hc'. exact Hc'.
  - pose proof (sorted_upper_part sorted _ median Hs Hm) as Hup.
    rewrite (Permutation_filter_length _ _ _ Hp), filter_map_length in Hup.
    rewrite (Permutation_length Hp), length_map in Hup.
    assert (Hmono : (length (filter (fun a => (median <=? area a)%Z) raw)
                     <= length (filter (big_enough median) raw))%nat).
    { apply filter_length_mono. intros c _ Hc'.
      apply big_enough_Z. apply Z.leb_le in Hc'. lia. }
    pose proof (Nat.div_mod_eq (length raw) 2) as Hd.
    pose proof (Nat.mod_upper_bound (length raw) 2 ltac:(lia)). lia.
Qed.

Lemma detectGridWithGutters_keeps_upper_half_witness :
  GridDetectionResult.cells
    (GridDetectionResult.mk 1 2
       [ GridCell.mk 0 0 1 1; GridCell.mk 2 0 1 1 ] 0.95%R) <> [].
Proof.
  apply (detectGridWithGutters_keeps_upper_half two_dots
           (GridDetectionResult.mk 1 2
              [ GridCell.mk 0 0 1 1; GridCell.mk 2 0 1 1 ] 0.95%R)).
  reflexivity.
Defined.

(** ** Aspect-ratio scoring *)

Section AspectScore.
Local Open Scope R_scope.

Lemma COMMON_ASPECT_RATIOS_pos (c : R) : In c COMMON_ASPECT_RATIOS -> 0 < c.
Proof.
  unfold COMMON_ASPECT_RATIOS. cbn [In].
  intros H. repeat (destruct H as [<- | H]; [lra|]). destruct H.
Qed.

Lemma loop_distance_symmetric (r c : R) :
  0 < r -> 0 < c -> loop_distance r c = symmetric_distance r c.
Proof.
  intros Hr Hc. unfold loop_distance, symmetric_distance.
  assert (E1 : r / c * c = r) by (field; lra).
  assert (E2 : c / r * r = c) by (field; lra).
  destruct (Rgt_dec r c) as [G | G].
  - assert (1 < r / c) by nra. assert (c / r < 1) by nra.
    rewrite Rmax_left; [reflexivity | lra].
  - assert (r / c <= 1) by nra. assert (1 <= c / r) by nra.
    rewrite Rmax_right; [reflexivity | lra].
Qed.

Lemma symmetric_distance_nonneg (r c : R) :
  0 < r -> 0 < c -> 0 <= symmetric_distance r c.
Proof.
  intros Hr Hc. rewrite <- loop_distance_symmetric by assumption.
  unfold loop_distance.
  assert (E1 : r / c * c = r) by (field; lra).
  assert (E2 : c / r * r = c) by (field; lra).
  destruct (Rgt_dec r c); nra.
Qed.

Lemma symmetric_distance_zero_iff (r c : R) :
  0 < r -> 0 < c -> (symmetric_distance r c = 0 <-> r = c).
Proof.
  intros Hr Hc. rewrite <- loop_distance_symmetric by assumption.
  unfold loop_distance.
  assert (E1 : r / c * c = r) by (field; lra).
  assert (E2 : c / r * r = c) by (field; lra).
  destruct (Rgt_dec r c); split; intros; nra.
Qed.

(** The loop keeps the running minimum of the distances. *)
Lemma aspect_fold_some (r : R) (l : list R) (b : R) :
  fold_left (aspect_step r) l (Some b) =
  Some (fold_left Rmin (map (loop_distance r) l) b).
Proof.
  revert b. induction l as [|c l IH]; intros b; [reflexivity|].
  cbn [fold_left map]. apply IH.
Qed.

Lemma fold_Rmin_spec (ds : list R) (b : R) :
  let m := fold_left Rmin ds b in
  (m = b \/ In m ds) /\ m <= b /\ (forall d, In d ds -> m <= d).
Proof.
  revert b. induction ds as [|d ds IH]; intros b; cbn [fold_left In].
  - split; [now left|]. split; [lra | intros d []].
  - specialize (IH (Rmin b d)). cbv zeta in IH.
    destruct IH as [Hm [Hle Hall]].
    pose proof (Rmin_l b d). pose proof (Rmin_r b d).
    split; [|split].
    + destruct Hm as [Hm | Hm]; [|now right; right].
      rewrite Hm. unfold Rmin. destruct (Rle_dec b d); [now left | now right; left].
    + lra.
    + intros d' [<- | Hd']; [lra | now apply Hall].
Qed.

(** After the loop, [bestMatch] is the least distance to a ratio of the
    list. *)
Lemma aspect_fold_min (ratio : R) (l : list R) :
  0 < ratio -> l <> [] -> (forall c, In c l -> 0 < c) ->
  exists d,
    (exists c, In c l /\ d = symmetric_distance ratio c) /\
    (forall c, In c l -> d <= symmetric_distance ratio c) /\
    fold_left (aspect_step ratio) l None = Some d.
Proof.
  intros Hr Hne Hpos. destruct l as [|c0 rest]; [congruence|].
  cbn [fold_left]. unfold aspect_step at 2.
  fold (loop_distance ratio c0). rewrite aspect_fold_some.
  destruct (fold_Rmin_spec (map (loop_distance ratio) rest) (loop_distance ratio c0))
    as [Hm [Hle Hall]].
  set (d := fold_left Rmin _ _) in *.
  exists d. split; [|split; [|reflexivity]].
  - destruct Hm as [Hm | Hm].
    + exists c0. split; [now left|].
      rewrite Hm. apply loop_distance_symmetric; [exact Hr|].
      apply Hpos. now left.
    + apply in_map_iff in Hm. destruct Hm as [c [Hc Hcin]].
      exists c. split; [now right|].
      rewrite <- Hc. apply loop_distance_symmetric; [exact Hr|].
      apply Hpos. now right.
  - intros c Hc.
    rewrite <- loop_distance_symmetric by (try exact Hr; now apply Hpos).
    destruct Hc as [<- | Hc]; [exact Hle|].
    apply Hall. now apply in_map.
Qed.

Lemma Math_exp_between (t : R) : t <= 0 -> 0 <= Math_exp t <= 1.
Proof.
  intros Ht. unfold Math_exp. destruct (Rlt_dec t exp_underflow); [lra|].
  split; [left; apply exp_pos|].
  rewrite <- exp_0. destruct Ht as [Hlt | ->]; [left; now apply exp_increasing | lra].
Qed.

Lemma Math_exp_zero_iff (t : R) : Math_exp t = 0 <-> t < exp_underflow.
Proof.
  unfold Math_exp. destruct (Rlt_dec t exp_underflow) as [L | G]; [tauto|].
  split; [|tauto]. intros E. pose proof (exp_pos t). lra.
Qed.

Lemma Math_exp_exp (t : R) : exp_underflow <= t -> Math_exp t = exp t.
Proof.
  intros Ht. unfold Math_exp. destruct (Rlt_dec t exp_underflow); [lra | reflexivity].
Qed.

Lemma aspectRatioScore_min (ratio : R) :
  0 < ratio ->
  exists d,
    (exists c, In c COMMON_ASPECT_RATIOS /\ d = symmetric_distance ratio c) /\
    (forall c, In c COMMON_ASPECT_RATIOS -> d <= symmetric_distance ratio c) /\
    aspectRatioScore ratio = Math_exp (- 3 * d).
Proof.
  intros Hr.
  destruct (aspect_fold_min ratio COMMON_ASPECT_RATIOS Hr)
    as [d [Hex [Hmin Hfold]]].
  - discriminate.
  - apply COMMON_ASPECT_RATIOS_pos.
  - exists d. split; [exact Hex|]. split; [exact Hmin|].
    unfold aspectRatioScore. rewrite Hfold. f_equal. ring.
Qed.

(** C7 (as amended): for every ratio > 0 the aspect scorer returns
    [Math.exp(-3 d)], where [d] is the minimum over the list 16/9, 4/3,
    3/2, 1.85, 2.39, 1, 9/16, 3/4, 2/3 of [max(ratio/c, c/ratio) - 1]; the
    result lies in [0,1], it is exactly 0 when [Math.exp] underflows
    ([-3 d] below about -745.13) and positive otherwise, and it is exactly
    1 for every ratio of that list. *)
Theorem aspectRatioScore_spec (ratio : R) :
  0 < ratio ->
  COMMON_ASPECT_RATIOS = [16 / 9; 4 / 3; 3 / 2; 1.85; 2.39; 1; 9 / 16; 3 / 4; 2 / 3] /\
  (exists d,
      (exists c, In c COMMON_ASPECT_RATIOS /\ d = symmetric_distance ratio c) /\
      (forall c, In c COMMON_ASPECT_RATIOS -> d <= symmetric_distance ratio c) /\
      aspectRatioScore ratio = Math_exp (- 3 * d) /\
      (- 3 * d < - 745.13321910194110842 -> aspectRatioScore ratio = 0) /\
      (- 745.13321910194110842 <= - 3 * d ->
       aspectRatioScore ratio = exp (- 3 * d) /\ 0 < aspectRatioScore ratio)) /\
  0 <= aspectRatioScore ratio <= 1 /\
  (In ratio COMMON_ASPECT_RATIOS -> aspectRatioScore ratio = 1).
Proof.
  intros Hr. split; [reflexivity|].
  destruct (aspectRatioScore_min ratio Hr) as [d [[c [Hc Hd]] [Hmin Hs]]].
  assert (Hd0 : 0 <= d).
  { rewrite Hd. apply symmetric_distance_nonneg; [exact Hr|].
    now apply COMMON_ASPECT_RATIOS_pos. }
  split; [|split].
  - exists d. split; [eauto|]. split; [exact Hmin|]. split; [exact Hs|].
    rewrite Hs. split.
    + intros Hu. now apply Math_exp_zero_iff.
    + intros Hu. rewrite Math_exp_exp by exact Hu.
      split; [reflexivity | apply exp_pos].
  - rewrite Hs. apply Math_exp_between. lra.
  - intros Hin. specialize (Hmin ratio Hin).
    rewrite (proj2 (symmetric_distance_zero_iff ratio ratio Hr Hr) eq_refl) in Hmin.
    rewrite Hs. replace d with 0 by lra. rewrite Rmult_0_r.
    rewrite Math_exp_exp by (unfold exp_underflow; lra). apply exp_0.
Qed.

Lemma aspectRatioScore_spec_witness : aspectRatioScore 1 = 1.
Proof.
  apply (aspectRatioScore_spec 1); [lra|].
  unfold COMMON_ASPECT_RATIOS. cbn [In]. tauto.
Defined.

(** C7 (as stated) fails twice.  The reciprocal of the cinema ratio 1.85
    is in the list the sentence describes, yet its score is below 1; and
    at ratio 600 the least distance is above 250, [Math.exp] underflows
    and the score is 0, outside (0,1]. *)
Lemma aspectRatioScore_portrait_cinema :
  (In (1 / 1.85) RATIOS_WITH_RECIPROCALS /\ aspectRatioScore (1 / 1.85) <> 1) /\
  aspectRatioScore 600 = 0.
Proof.
  split; [split|].
  - unfold RATIOS_WITH_RECIPROCALS. cbn [In]. tauto.
  - destruct (aspectRatioScore_min (1 / 1.85) ltac:(lra)) as [d [[c [Hc Hd]] [Hmin Hs]]].
    rewrite Hs. intros E.
    assert (Hpos : 0 < d).
    { assert (Hc0 : 0 < c) by now apply COMMON_ASPECT_RATIOS_pos.
      pose proof (symmetric_distance_nonneg (1 / 1.85) c ltac:(lra) Hc0) as Hn.
      rewrite <- Hd in Hn.
      destruct Hn as [Hn | Hz]; [exact Hn|]. symmetry in Hz.
      exfalso. rewrite Hd in Hz.
      apply (proj1 (symmetric_distance_zero_iff (1 / 1.85) c ltac:(lra) Hc0)) in Hz.
      unfold COMMON_ASPECT_RATIOS in Hc. cbn [In] in Hc.
      repeat (destruct Hc as [<- | Hc]; [lra|]). destruct Hc. }
    unfold Math_exp in E. destruct (Rlt_dec (- 3 * d) exp_underflow); [lra|].
    assert (exp (- 3 * d) < exp 0) by (apply exp_increasing; lra).
    rewrite exp_0 in H. lra.
  - destruct (aspectRatioScore_min 600 ltac:(lra)) as [d [[c [Hc Hd]] [_ Hs]]].
    rewrite Hs. apply Math_exp_zero_iff.
    assert (Hfar : 250 < d).
    { rewrite Hd. unfold symmetric_distance.
      pose proof (Rmax_l (600 / c) (c / 600)) as Hm.
      assert (251 < 600 / c); [|lra].
      unfold COMMON_ASPECT_RATIOS in Hc. cbn [In] in Hc.
      repeat (destruct Hc as [<- | Hc]; [lra|]). destruct Hc. }
    unfold exp_underflow. lra.
Qed.
End AspectScore.

(** ** Candidate generation *)

Section Candidates.
Local Open Scope R_scope.

Lemma getGridCandidates_sort (width height : Z) :
  getGridCandidates width height = Array_sort by_score_desc (generated width height).
Proof. reflexivity. Qed.

Lemma In_generated (width height : Z) (c : GridCandidate.t) :
  In c (generated width height) <->
  exists rows cols,
    tried rows cols /\ c = gridCandidate (IZR width) (IZR height) rows cols.
Proof.
  unfold generated, tried. rewrite in_flat_map. split.
  - intros [rows [Hr Hc]]. apply in_flat_map in Hc.
    destruct Hc as [cols [Hcl Hc]].
    apply In_range_incl in Hr, Hcl.
    destruct ((rows =? 1)%Z && (cols =? 1)%Z) eqn:E; [destruct Hc|].
    destruct Hc as [<- | []]. exists rows, cols.
    apply andb_false_iff in E. rewrite !Z.eqb_neq in E.
    split; [|reflexivity]. split; [lia|]. split; lia.
  - intros [rows [cols [[Hr [Hcl Hne]] ->]]].
    exists rows. split; [now apply In_range_incl|].
    apply in_flat_map. exists cols. split; [now apply In_range_incl|].
    destruct ((rows =? 1)%Z && (cols =? 1)%Z) eqn:E; [|now left].
    apply andb_true_iff in E. rewrite !Z.eqb_eq in E. tauto.
Qed.

Lemma generated_length (width height : Z) :
  length (generated width height) = 35%nat.
Proof. reflexivity. Qed.

Lemma generated_once (width height rows cols : Z) :
  tried rows cols ->
  length (filter (is_grid rows cols) (generated width height)) = 1%nat.
Proof.
  intros [Hr [Hc Hne]].
  assert (Er : (rows = 1 \/ rows = 2 \/ rows = 3 \/ rows = 4 \/ rows = 5 \/ rows = 6)%Z)
    by lia.
  assert (Ec : (cols = 1 \/ cols = 2 \/ cols = 3 \/ cols = 4 \/ cols = 5 \/ cols = 6)%Z)
    by lia.
  repeat (destruct Er as [-> | Er]); try subst rows;
    repeat (destruct Ec as [-> | Ec]); try subst cols;
    try reflexivity; exfalso; apply Hne; split; reflexivity.
Qed.

Lemma by_score_desc_true (a b : GridCandidate.t) :
  by_score_desc a b = true <-> GridCandidate.score b < GridCandidate.score a.
Proof.
  unfold by_score_desc. destruct (Rlt_dec _ _); split; intros; try lra; discriminate.
Qed.

Lemma by_score_desc_false (a b : GridCandidate.t) :
  by_score_desc a b = false <-> GridCandidate.score a <= GridCandidate.score b.
Proof.
  unfold by_score_desc. destruct (Rlt_dec _ _); split; intros; try lra; discriminate.
Qed.

Lemma getGridCandidates_sorted (width height : Z) :
  StronglySorted (fun a b => GridCandidate.score a >= GridCandidate.score b)
                 (getGridCandidates width height).
Proof.
  rewrite getGridCandidates_sort.
  apply Sorted_StronglySorted; [intros a b c; lra|].
  apply (Sorted_weaken (not_after by_score_desc)).
  - unfold not_after. intros a b H. apply by_score_desc_false in H. lra.
  - apply Array_sort_sorted. intros a b H.
    apply by_score_desc_true in H. apply by_score_desc_false. lra.
Qed.

Lemma gridCandidate_score (width height : R) (rows cols : Z) :
  0 < width -> 0 < height -> (1 <= rows)%Z -> (1 <= cols)%Z ->
  (rows <= 6)%Z -> (cols <= 6)%Z ->
  GridCandidate.score (gridCandidate width height rows cols) =
  0.55 * cellARScore width height rows cols
  + 0.25 * layoutScore width height rows cols
  + 0.10 * cellCountScore rows cols
  + 0.10 * gridSymmetry rows cols.
Proof.
  intros Hw Hh Hr Hc Hr6 Hc6.
  unfold gridCandidate, cellARScore, layoutScore, cellCountScore, gridSymmetry.
  cbn [GridCandidate.score].
  assert (Hrr : 0 < IZR rows) by (apply IZR_lt; lia).
  assert (Hcc : 0 < IZR cols) by (apply IZR_lt; lia).
  assert (Himg : 0 < width / height) by (apply Rdiv_lt_0_compat; assumption).
  assert (Hgrid : 0 < IZR cols / IZR rows) by (apply Rdiv_lt_0_compat; assumption).
  rewrite <- (loop_distance_symmetric _ _ Himg Hgrid). unfold loop_distance.
  replace (- ((if Rgt_dec (width / height) (IZR cols / IZR rows)
               then width / height / (IZR cols / IZR rows)
               else IZR cols / IZR rows / (width / height)) - 1) * 2)
    with (- 2 * ((if Rgt_dec (width / height) (IZR cols / IZR rows)
                  then width / height / (IZR cols / IZR rows)
                  else IZR cols / IZR rows / (width / height)) - 1)) by ring.
  destruct (rows * cols <=? 6)%Z.
  - lra.
  - replace (- (IZR (rows * cols) - 6) * 0.15)
      with (- 0.15 * (IZR (rows * cols) - 6)) by lra.
    assert (IZR (rows * cols) <= 36) by (apply IZR_le; nia).
    rewrite (Math_exp_exp (- 0.15 * (IZR (rows * cols) - 6)))
      by (unfold exp_underflow; lra).
    lra.
Qed.

(** C6: for all width, height > 0, [getGridCandidates] returns exactly 35
    candidates, one for every (rows, cols) with 1 <= rows, cols <= 6 other
    than (1,1), sorted by non-increasing score; each score is
    [0.55 cellARScore + 0.25 layoutScore + 0.10 cellCountScore + 0.10
    gridSymmetry] with [cellCountScore = 1] when [rows * cols <= 6] and
    [exp(-0.15 (rows * cols - 6))] otherwise, and [gridSymmetry = 1 -
    |rows - cols| / max(rows, cols)]. *)
Theorem getGridCandidates_spec (width height : Z) :
  (0 < width)%Z -> (0 < height)%Z ->
  let candidates := getGridCandidates width height in
  length candidates = 35%nat /\
  (forall c, In c candidates ->
             tried (GridCandidate.rows c) (GridCandidate.cols c)) /\
  (forall rows cols, tried rows cols ->
                     length (filter (is_grid rows cols) candidates) = 1%nat) /\
  StronglySorted (fun a b => GridCandidate.score a >= GridCandidate.score b)
                 candidates /\
  (forall c, In c candidates ->
     let rows := GridCandidate.rows c in
     let cols := GridCandidate.cols c in
     GridCandidate.score c =
       0.55 * cellARScore (IZR width) (IZR height) rows cols
       + 0.25 * layoutScore (IZR width) (IZR height) rows cols
       + 0.10 * cellCountScore rows cols
       + 0.10 * gridSymmetry rows cols /\
     cellCountScore rows cols =
       (if (rows * cols <=? 6)%Z then 1
        else exp (- 0.15 * (IZR (rows * cols) - 6))) /\
     gridSymmetry rows cols =
       1 - IZR (Z.abs (rows - cols)) / IZR (Z.max rows cols)).
Proof.
  intros Hw Hh candidates.
  assert (Hperm : Permutation (generated width height) candidates)
    by apply Array_sort_perm.
  assert (Hin : forall c, In c candidates ->
            exists rows cols, tried rows cols /\
              c = gridCandidate (IZR width) (IZR height) rows cols).
  { intros c Hc. apply In_generated.
    apply (Permutation_in _ (Permutation_sym Hperm) Hc). }
  split; [|split; [|split; [|split]]].
  - rewrite <- (Permutation_length Hperm). apply generated_length.
  - intros c Hc. destruct (Hin c Hc) as [rows [cols [Ht ->]]]. exact Ht.
  - intros rows cols Ht.
    rewrite <- (Permutation_filter_length _ _ _ Hperm).
    now apply generated_once.
  - apply getGridCandidates_sorted.
  - intros c Hc. destruct (Hin c Hc) as [rows [cols [Ht ->]]].
    cbn [GridCandidate.rows GridCandidate.cols gridCandidate].
    cbv zeta. split; [|split; reflexivity].
    unfold tried in Ht.
    apply gridCandidate_score; try lia; apply IZR_lt; lia.
Qed.

Lemma getGridCandidates_spec_witness :
  length (getGridCandidates 4 3) = 35%nat.
Proof.
  apply (getGridCandidates_spec 4 3); lia.
Defined.
End Candidates.

(** ** Edge scoring *)

(** C5: [scoreGridByEdges] is documented to return a score in [0,1], the
    average capped ratio [r] mapped through [clamp((r - 1) / 2, 0, 1)].
    On the profiles of [white_first_column], for a 1 by 2 grid, no edge
    lies near the division point, [r] is 0 and the function returns
    [-1/2]: the lower clamp is missing. *)
Theorem scoreGridByEdges_below_zero :
  (scoreGridByEdges 1 2 10 10
     (calculateVerticalEdgeProfile white_first_column)
     (calculateHorizontalEdgeProfile white_first_column) == - (1 # 2))%Q.
Proof. vm_compute. reflexivity. Qed.

(** With no internal division the score is 0. *)
Lemma scoreGridByEdges_single_cell (width height : Z) (vp hp : list Q) :
  scoreGridByEdges 1 1 width height vp hp = 0%Q.
Proof. reflexivity. Qed.

(** *** How far the score can go *)

Section EdgeScoreRange.
Local Open Scope Q_scope.

Lemma Qdiv_nonneg (a b : Q) : 0 <= a -> 0 < b -> 0 <= a / b.
Proof.
  intros Ha Hb. unfold Qdiv. apply Qmult_le_0_compat; [exact Ha|].
  apply Qlt_le_weak, Qinv_lt_0_compat, Hb.
Qed.

Lemma window_max_nonneg (profile : list Q) (limit expectedPos searchWindow : Z) :
  0 <= window_max profile limit expectedPos searchWindow.
Proof.
  unfold window_max.
  assert (G : forall l acc, 0 <= acc ->
            0 <= fold_left (fun maxStrength offset =>
                              if ((0 <? expectedPos + offset)
                                  && (expectedPos + offset <? limit - 1))%Z
                              then Qmax maxStrength
                                        (profile_get profile (expectedPos + offset)%Z)
                              else maxStrength) l acc).
  { induction l as [|o l IH]; intros acc Hacc; cbn [fold_left]; [exact Hacc|].
    apply IH. destruct (_ && _)%bool; [|exact Hacc].
    eapply Qle_trans; [exact Hacc | apply Q.le_max_l]. }
  apply G. apply Qle_refl.
Qed.

Lemma score_axis_inv (profile : list Q) (base : Q) (limit parts searchWindow : Z)
      (st : Q * Z) :
  ratio_inv st -> ratio_inv (score_axis profile base limit parts searchWindow st).
Proof.
  unfold score_axis. destruct (1 <? parts)%Z; [|auto].
  generalize (range_incl 1 (parts - 1)). intros l. revert st.
  induction l as [|i l IH]; intros st Hst; cbn [fold_left]; [exact Hst|].
  apply IH. destruct Hst as [Hd [Ht0 Ht3]].
  unfold ratio_inv; cbn [fst snd].
  set (ratio := if Qltb 0 base then _ else 1).
  assert (Hr : 0 <= ratio).
  { subst ratio. destruct (Qltb 0 base) eqn:E; [|discriminate].
    apply Qdiv_nonneg; [apply window_max_nonneg | now apply Qltb_lt]. }
  assert (Hm0 : 0 <= Qmin ratio 3) by (apply Q.min_glb; [exact Hr | discriminate]).
  assert (Hm3 : Qmin ratio 3 <= 3) by apply Q.le_min_r.
  rewrite inject_Z_plus. change (inject_Z 1) with 1.
  repeat split; [lia | lra | lra].
Qed.

(** The score never exceeds 1 and never goes below -1/2. *)
Lemma scoreGridByEdges_range (rows cols width height : Z) (vp hp : list Q) :
  - (1 # 2) <= scoreGridByEdges rows cols width height vp hp <= 1.
Proof.
  unfold scoreGridByEdges.
  set (sw := Z.max 3 _).
  assert (H0 : ratio_inv (0, 0%Z)).
  { unfold ratio_inv; cbn. repeat split; try lia; discriminate. }
  pose proof (score_axis_inv hp (baseline hp) height rows sw _
                (score_axis_inv vp (baseline vp) width cols sw _ H0)) as H.
  destruct (score_axis hp _ _ _ _ _) as [totalRatio divisions].
  destruct H as [Hd [Ht0 Ht3]]. cbn [fst snd] in *.
  destruct (Z.eqb_spec divisions 0) as [E | NE]; [split; discriminate|].
  assert (Hpos : 0 < inject_Z divisions).
  { change 0 with (inject_Z 0). rewrite <- Zlt_Qlt. lia. }
  assert (Havg : 0 <= totalRatio / inject_Z divisions)
    by now apply Qdiv_nonneg.
  split; [|apply Q.le_min_r].
  apply Q.min_glb; [|discriminate].
  unfold Qdiv at 1. change (/ 2) with (1 # 2). lra.
Qed.
End EdgeScoreRange.


(** ** The geometric detector *)

Lemma getGridCandidates_tried (width height : Z) (c : GridCandidate.t) :
  In c (getGridCandidates width height) ->
  tried (GridCandidate.rows c) (GridCandidate.cols c).
Proof.
  intros Hc. rewrite getGridCandidates_sort in Hc.
  apply (Permutation_in _ (Permutation_sym (Array_sort_perm _ _))) in Hc.
  apply In_generated in Hc. destruct Hc as [rows [cols [Ht ->]]]. exact Ht.
Qed.

Lemma pick_step_fst (img : ImageData.t) (vp hp : list Q)
      (st : GridCandidate.t * option R) (c : GridCandidate.t) :
  fst (pick_step img vp hp st c) = c \/ fst (pick_step img vp hp st c) = fst st.
Proof.
  unfold pick_step. destruct (snd st); [|now left].
  destruct (Rgt_dec _ _); [now left | now right].
Qed.

Lemma pick_step_snd (img : ImageData.t) (vp hp : list Q)
      (st : GridCandidate.t * option R) (c : GridCandidate.t) :
  snd (pick_step img vp hp st c) <> None.
Proof.
  unfold pick_step. destruct (snd st) eqn:E; [|discriminate].
  destruct (Rgt_dec _ _); [discriminate | congruence].
Qed.

Lemma pick_fold_fst (img : ImageData.t) (vp hp : list Q)
      (l : list GridCandidate.t) (st : GridCandidate.t * option R) :
  In (fst (fold_left (pick_step img vp hp) l st)) l \/
  fst (fold_left (pick_step img vp hp) l st) = fst st.
Proof.
  revert st. induction l as [|c l IH]; intros st; cbn [fold_left]; [now right|].
  destruct (IH (pick_step img vp hp st c)) as [H | H].
  - left. now right.
  - rewrite H. destruct (pick_step_fst img vp hp st c) as [E | E].
    + left. left. now rewrite E.
    + now right.
Qed.

Lemma pick_fold_snd (img : ImageData.t) (vp hp : list Q)
      (l : list GridCandidate.t) (st : GridCandidate.t * option R) :
  (l <> [] \/ snd st <> None) ->
  snd (fold_left (pick_step img vp hp) l st) <> None.
Proof.
  revert st. induction l as [|c l IH]; intros st H; cbn [fold_left].
  - destruct H as [H | H]; [congruence | exact H].
  - apply IH. right. apply pick_step_snd.
Qed.

Lemma In_firstn {A : Type} (n : nat) (l : list A) (a : A) :
  In a (firstn n l) -> In a l.
Proof.
  intros H. rewrite <- (firstn_skipn n l). apply in_or_app. now left.
Qed.

Lemma getGridCandidates_nonempty (width height : Z) :
  getGridCandidates width height <> [].
Proof.
  intros E. apply (f_equal (@length _)) in E.
  rewrite getGridCandidates_sort, Array_sort_length, generated_length in E.
  discriminate.
Qed.

(** The detector always answers, with the regular partition of one of
    the configurations tried. *)
Lemma analyzeGridFromImageData_grid (img : ImageData.t) :
  exists (rows cols : Z) (s : R),
    tried rows cols /\
    analyzeGridFromImageData img =
    Some (GridDetectionResult.mk rows cols
            (GridDetectionResult.cells
               (createGridForDimensions (ImageData.width img) (ImageData.height img)
                                        rows cols))
            s).
Proof.
  unfold analyzeGridFromImageData.
  pose proof (getGridCandidates_nonempty (ImageData.width img) (ImageData.height img)) as Hne.
  pose proof (getGridCandidates_tried (ImageData.width img) (ImageData.height img)) as Ht.
  destruct (getGridCandidates _ _) as [|c0 rest] eqn:E; [congruence|].
  set (vp := calculateVerticalEdgeProfile img).
  set (hp := calculateHorizontalEdgeProfile img).
  pose proof (pick_fold_fst img vp hp (firstn 8 (c0 :: rest)) (c0, None)) as Hf.
  pose proof (pick_fold_snd img vp hp (firstn 8 (c0 :: rest)) (c0, None)) as Hs.
  destruct (fold_left _ _ _) as [best score]. cbn [fst snd] in Hf, Hs.
  destruct score as [s|]; [|exfalso; apply Hs; [left; discriminate | reflexivity]].
  exists (GridCandidate.rows best), (GridCandidate.cols best), s.
  split; [|reflexivity].
  apply Ht. destruct Hf as [Hf | ->]; [|now left].
  now apply In_firstn in Hf.
Qed.

(** ** Bounds of the cells *)

(** C1 (as stated) fails: in the 3 by 2 partition of a 5 by 1 image the
    cell at row 0, column 1 is [{x: 3, y: 0, width: 3, height: 0}]
    ([round(2.5) = 3] twice, [round(1/3) = 0]); it ends at pixel 6 of 5
    and its height is not positive. *)
Lemma createGridForDimensions_out_of_bounds :
  In (GridCell.mk 3 0 3 0)
     (GridDetectionResult.cells (createGridForDimensions 5 1 3 2)) /\
  ~ Forall (cell_in_bounds 5 1)
           (GridDetectionResult.cells (createGridForDimensions 5 1 3 2)).
Proof.
  assert (Hin : In (GridCell.mk 3 0 3 0)
                   (GridDetectionResult.cells (createGridForDimensions 5 1 3 2)))
    by (vm_compute; tauto).
  split; [exact Hin|].
  intros F. rewrite Forall_forall in F.
  destruct (F _ Hin) as [H _]. cbn in H. lia.
Qed.

(** C1 (as amended): for image dimensions >= 1 and rows, cols >= 1, a
    cell of the regular partition (of [createGridForDimensions], and of the
    geometric detector, which calls it) has x, y >= 0, x + width <=
    imageWidth + 1, y + height <= imageHeight + 1, width, height >= 0, with
    width > 0 exactly when cols <= 2 imageWidth and height > 0 exactly when
    rows <= 2 imageHeight; a cell of the gutter detector has x + width <=
    imageWidth, y + height <= imageHeight, width > 0 and height > 0. *)
Theorem cell_bounds (w h rows cols : Z) (img : ImageData.t) :
  1 <= w -> 1 <= h -> 1 <= rows -> 1 <= cols ->
  Forall (cell_near_bounds w h rows cols)
         (GridDetectionResult.cells (createGridForDimensions w h rows cols)) /\
  (forall g,
      1 <= ImageData.width img -> 1 <= ImageData.height img ->
      analyzeGridFromImageData img = Some g ->
      Forall (cell_near_bounds (ImageData.width img) (ImageData.height img)
                               (GridDetectionResult.rows g) (GridDetectionResult.cols g))
             (GridDetectionResult.cells g)) /\
  (forall g,
      detectGridWithGutters_pixels img = Some g ->
      Forall (cell_in_bounds (ImageData.width img) (ImageData.height img))
             (GridDetectionResult.cells g)).
Proof.
  intros Hw Hh _ _. split; [|split].
  - now apply createGridForDimensions_near_bounds.
  - intros g Hiw Hih Hg.
    destruct (analyzeGridFromImageData_grid img) as [r [c [s [_ E]]]].
    rewrite E in Hg. injection Hg as <-.
    cbn [GridDetectionResult.rows GridDetectionResult.cols GridDetectionResult.cells].
    now apply createGridForDimensions_near_bounds.
  - intros g Hg. apply detectGridWithGutters_pixels_some in Hg.
    cbv zeta in Hg. destruct Hg as [_ [_ ->]].
    cbn [GridDetectionResult.cells]. apply Forall_forall.
    intros c Hc. apply filter_In in Hc. destruct Hc as [Hc _].
    now apply gutter_cells_area_pos in Hc.
Qed.

Lemma cell_bounds_witness :
  Forall (cell_near_bounds 5 5 2 2)
         (GridDetectionResult.cells (createGridForDimensions 5 5 2 2)) /\
  Forall (cell_in_bounds 3 1)
         [ GridCell.mk 0 0 1 1; GridCell.mk 2 0 1 1 ].
Proof.
  destruct (cell_bounds 5 5 2 2 two_dots) as [H1 [_ H3]]; try lia.
  split; [exact H1|].
  apply (H3 (GridDetectionResult.mk 1 2
               [ GridCell.mk 0 0 1 1; GridCell.mk 2 0 1 1 ] 0.95%R)).
  reflexivity.
Defined.

(** ** The orchestrator *)

Section Orchestrator.
Variable loadImage : string -> option ImageData.t.
Variable getContext2d : bool.
Variable cropToDataURL : ImageData.t -> GridCell.t -> string.

Lemma split_loop_map (img : ImageData.t) (cells : list GridCell.t)
      (results : list string) :
  getContext2d = true ->
  split_loop getContext2d cropToDataURL img cells results =
  Resolved (results ++ map (cropToDataURL img) cells).
Proof.
  intros ->. revert results.
  induction cells as [|cell rest IH]; intros results; cbn [split_loop map].
  - now rewrite app_nil_r.
  - rewrite IH, <- app_assoc. reflexivity.
Qed.

(** One output image per cell, in the order of [grid.cells]. *)
Lemma splitImage_map (imageDataUrl : string) (img : ImageData.t)
      (grid : GridDetectionResult.t) :
  loadImage imageDataUrl = Some img -> getContext2d = true ->
  splitImage loadImage getContext2d cropToDataURL imageDataUrl grid =
  Resolved (map (cropToDataURL img) (GridDetectionResult.cells grid)).
Proof.
  intros Himg Hctx. unfold splitImage. rewrite Himg.
  now rewrite split_loop_map.
Qed.

Lemma detectGrid_resolves (imageDataUrl : string) (img : ImageData.t) :
  loadImage imageDataUrl = Some img -> getContext2d = true ->
  exists heuristic,
    analyzeGridFromImageData img = Some heuristic /\
    detectGrid loadImage getContext2d imageDataUrl = Resolved heuristic.
Proof.
  intros Himg Hctx. unfold detectGrid. rewrite Himg, Hctx.
  destruct (analyzeGridFromImageData_grid img) as [r [c [s [_ E]]]].
  rewrite E. eauto.
Qed.

(** C2: for every image, if the gutter detector returns none or a grid
    with fewer than 2 cells, [detectAndSplitGrid] uses exactly the grid
    that [detectGrid] alone produces on that image; otherwise it uses the
    gutter detector's grid unchanged; then it splits one output image per
    cell, in the grid's cell order. *)
Theorem detectAndSplitGrid_fallback (imageDataUrl : string) (img : ImageData.t) :
  loadImage imageDataUrl = Some img -> getContext2d = true ->
  let gutters := detectGridWithGutters_pixels img in
  detectGridWithGutters loadImage getContext2d imageDataUrl = Resolved gutters /\
  exists heuristic grid,
    detectGrid loadImage getContext2d imageDataUrl = Resolved heuristic /\
    (gutters = None \/
     (exists g, gutters = Some g /\ (length (GridDetectionResult.cells g) < 2)%nat) ->
     grid = heuristic) /\
    (forall g, gutters = Some g -> (2 <= length (GridDetectionResult.cells g))%nat ->
               grid = g) /\
    detectAndSplitGrid loadImage getContext2d cropToDataURL imageDataUrl =
    Resolved (grid, map (cropToDataURL img) (GridDetectionResult.cells grid)).
Proof.
  intros Himg Hctx gutters.
  assert (Hg : detectGridWithGutters loadImage getContext2d imageDataUrl
               = Resolved gutters).
  { unfold detectGridWithGutters. now rewrite Himg, Hctx. }
  split; [exact Hg|].
  destruct (detectGrid_resolves imageDataUrl img Himg Hctx) as [heuristic [_ Hh]].
  exists heuristic.
  unfold detectAndSplitGrid. rewrite Hg. cbn [await].
  destruct gutters as [g|] eqn:E; cbn [needs_fallback].
  - destruct (Nat.ltb_spec (length (GridDetectionResult.cells g)) 2) as [Lt | Ge].
    + exists heuristic. split; [exact Hh|]. split; [reflexivity|]. split.
      * intros g' Eg' Hlen. injection Eg' as <-. lia.
      * rewrite Hh. cbn [await].
        now rewrite (splitImage_map _ img _ Himg Hctx).
    + exists g. split; [exact Hh|]. split; [|split].
      * intros [N | [g' [Eg' Hlen]]]; [discriminate|].
        injection Eg' as <-. lia.
      * intros g' Eg' _. now injection Eg' as <-.
      * cbn [await]. now rewrite (splitImage_map _ img _ Himg Hctx).
  - exists heuristic. split; [exact Hh|]. split; [reflexivity|]. split.
    + intros g' Eg'. discriminate.
    + rewrite Hh. cbn [await].
      now rewrite (splitImage_map _ img _ Himg Hctx).
Qed.
End Orchestrator.

Lemma detectAndSplitGrid_fallback_witness :
  detectGridWithGutters (fun _ => Some two_dots) true EmptyString =
  Resolved (detectGridWithGutters_pixels two_dots).
Proof.
  apply (detectAndSplitGrid_fallback (fun _ => Some two_dots) true
           (fun _ _ => EmptyString) EmptyString two_dots);
    reflexivity.
Defined.

(** * Further properties of the code *)

(** ** The regular partition, cell by cell *)

Lemma createGridForDimensions_nth (w h rows cols row col : Z) :
  0 <= row < rows -> 0 <= col < cols ->
  nth_error (GridDetectionResult.cells (createGridForDimensions w h rows cols))
            (Z.to_nat (row * cols + col)) =
  Some (gridCellAt w h rows cols row col).
Proof.
  intros Hrow Hcol. rewrite createGridForDimensions_cells.
  assert (Hblock : forall a, In a (range rows) ->
            length (map (gridCellAt w h rows cols a) (range cols)) = Z.to_nat cols).
  { intros a _. now rewrite length_map, length_range. }
  replace (Z.to_nat (row * cols + col))
    with (Z.to_nat row * Z.to_nat cols + Z.to_nat col)%nat by nia.
  rewrite (nth_error_blocks _ _ _ Hblock _ _ (Z.of_nat (Z.to_nat row))).
  - rewrite nth_error_map, nth_error_range by lia.
    cbn [option_map]. rewrite !Z2Nat.id by lia. reflexivity.
  - lia.
  - apply nth_error_range. lia.
Qed.

Lemma Math_round_exact (c size n : Z) :
  0 < n ->
  Math_round (inject_Z c * (inject_Z (n * size) / inject_Z n)) = c * size.
Proof.
  intros Hn. rewrite Math_round_scaled by exact Hn.
  replace (2 * c * (n * size) + n) with (c * size * (2 * n) + n) by ring.
  rewrite Z.div_add_l by lia. rewrite Z.div_small by lia. lia.
Qed.

Lemma Math_round_exact_size (size n : Z) :
  0 < n -> Math_round (inject_Z (n * size) / inject_Z n) = size.
Proof.
  intros Hn. rewrite Math_round_quot by exact Hn.
  replace (2 * (n * size) + n) with (size * (2 * n) + n) by ring.
  rewrite Z.div_add_l by lia. rewrite Z.div_small by lia. lia.
Qed.

(** X1: When the image width is a multiple of [cols] and the height a
    multiple of [rows], no rounding happens: cell [(row, col)] is
    [{x: col * cw, y: row * ch, width: cw, height: ch}], and with [cw, ch
    >= 1] every cell satisfies the bounds invariant. *)
Theorem createGridForDimensions_exact_tiling (cw ch rows cols : Z) :
  1 <= rows -> 1 <= cols -> 1 <= cw -> 1 <= ch ->
  let g := createGridForDimensions (cols * cw) (rows * ch) rows cols in
  (forall row col,
      0 <= row < rows -> 0 <= col < cols ->
      nth_error (GridDetectionResult.cells g) (Z.to_nat (row * cols + col)) =
      Some {| GridCell.x := col * cw; GridCell.y := row * ch;
              GridCell.width := cw; GridCell.height := ch |}) /\
  Forall (cell_in_bounds (cols * cw) (rows * ch)) (GridDetectionResult.cells g).
Proof.
  intros Hrows Hcols Hcw Hch g.
  assert (Hcell : forall row col,
            gridCellAt (cols * cw) (rows * ch) rows cols row col =
            GridCell.mk (col * cw) (row * ch) cw ch).
  { intros row col. unfold gridCellAt.
    now rewrite !Math_round_exact, !Math_round_exact_size by lia. }
  split.
  - intros row col Hrow Hcol. subst g.
    rewrite createGridForDimensions_nth by assumption. now rewrite Hcell.
  - apply Forall_forall. intros c Hc.
    apply In_createGridForDimensions in Hc.
    destruct Hc as [row [col [Hrow [Hcol ->]]]]. rewrite Hcell.
    unfold cell_in_bounds; cbn. repeat split; try lia; nia.
Qed.

Lemma createGridForDimensions_exact_tiling_witness :
  nth_error (GridDetectionResult.cells (createGridForDimensions (3 * 100) (2 * 50) 2 3))
            (Z.to_nat (1 * 3 + 2)) =
  Some {| GridCell.x := 2 * 100; GridCell.y := 1 * 50;
          GridCell.width := 100; GridCell.height := 50 |}.
Proof.
  apply (createGridForDimensions_exact_tiling 100 50 2 3); lia.
Defined.

(** X2: In the regular partition of an image of width and height at least
    1, every cell that has a right neighbour overlaps it or leaves a gap
    to it of at most one pixel and shares its [y]; every cell that has a
    neighbour below overlaps it or leaves a gap of at most one pixel and
    shares its [x]; and all cells have the same width and the same
    height.  This holds for grids of one row or one column as well. *)
Theorem createGridForDimensions_neighbours (w h rows cols : Z) :
  1 <= w -> 1 <= h ->
  let cells := GridDetectionResult.cells (createGridForDimensions w h rows cols) in
  (forall row col,
      0 <= row < rows -> 0 <= col -> col + 1 < cols ->
      exists a b,
        nth_error cells (Z.to_nat (row * cols + col)) = Some a /\
        nth_error cells (Z.to_nat (row * cols + (col + 1))) = Some b /\
        -1 <= GridCell.x b - (GridCell.x a + GridCell.width a) <= 1 /\
        GridCell.y b = GridCell.y a) /\
  (forall row col,
      0 <= row -> row + 1 < rows -> 0 <= col < cols ->
      exists a below,
        nth_error cells (Z.to_nat (row * cols + col)) = Some a /\
        nth_error cells (Z.to_nat ((row + 1) * cols + col)) = Some below /\
        -1 <= GridCell.y below - (GridCell.y a + GridCell.height a) <= 1 /\
        GridCell.x below = GridCell.x a) /\
  (forall a b,
      In a cells -> In b cells ->
      GridCell.width a = GridCell.width b /\ GridCell.height a = GridCell.height b).
Proof.
  intros Hw Hh cells. subst cells. split; [|split].
  - intros row col Hrow Hc0 Hc1.
    exists (gridCellAt w h rows cols row col),
           (gridCellAt w h rows cols row (col + 1)).
    rewrite !createGridForDimensions_nth by lia.
    split; [reflexivity|]. split; [reflexivity|].
    unfold gridCellAt; cbn [GridCell.x GridCell.y GridCell.width GridCell.height].
    split; [|reflexivity].
    rewrite !Math_round_scaled, !Math_round_quot by lia.
    pose proof (round_bounds w cols ltac:(lia)) as W.
    pose proof (round_bounds (col * w) cols ltac:(lia)) as X0.
    pose proof (round_bounds ((col + 1) * w) cols ltac:(lia)) as X1.
    cbv zeta in W, X0, X1.
    replace (2 * (col * w)) with (2 * col * w) in X0 by ring.
    replace (2 * ((col + 1) * w)) with (2 * (col + 1) * w) in X1 by ring.
    split; nia.
  - intros row col Hr0 Hr1 Hcol.
    exists (gridCellAt w h rows cols row col),
           (gridCellAt w h rows cols (row + 1) col).
    rewrite !createGridForDimensions_nth by lia.
    split; [reflexivity|]. split; [reflexivity|].
    unfold gridCellAt; cbn [GridCell.x GridCell.y GridCell.width GridCell.height].
    split; [|reflexivity].
    rewrite !Math_round_scaled, !Math_round_quot by lia.
    pose proof (round_bounds h rows ltac:(lia)) as H.
    pose proof (round_bounds (row * h) rows ltac:(lia)) as Y0.
    pose proof (round_bounds ((row + 1) * h) rows ltac:(lia)) as Y1.
    cbv zeta in H, Y0, Y1.
    replace (2 * (row * h)) with (2 * row * h) in Y0 by ring.
    replace (2 * ((row + 1) * h)) with (2 * (row + 1) * h) in Y1 by ring.
    split; nia.
  - intros a b Ha Hb. apply In_createGridForDimensions in Ha, Hb.
    destruct Ha as [ra [ca [_ [_ ->]]]]. destruct Hb as [rb [cb [_ [_ ->]]]].
    split; reflexivity.
Qed.

Lemma createGridForDimensions_neighbours_witness :
  exists a b,
    nth_error (GridDetectionResult.cells (createGridForDimensions 5 5 1 3))
              (Z.to_nat (0 * 3 + 1)) = Some a /\
    nth_error (GridDetectionResult.cells (createGridForDimensions 5 5 1 3))
              (Z.to_nat (0 * 3 + (1 + 1))) = Some b /\
    -1 <= GridCell.x b - (GridCell.x a + GridCell.width a) <= 1 /\
    GridCell.y b = GridCell.y a.
Proof.
  apply (createGridForDimensions_neighbours 5 5 1 3); lia.
Defined.

(** ** Order and number of the content intervals *)

Lemma StronglySorted_snoc {A : Type} (R : A -> A -> Prop) (l : list A) (v : A) :
  StronglySorted R l -> (forall a, In a l -> R a v) ->
  StronglySorted R (l ++ [v]).
Proof.
  induction 1 as [|a l Hs IH Hall]; intros Hv; cbn [app].
  - repeat constructor.
  - constructor.
    + apply IH. intros b Hb. apply Hv. now right.
    + apply Forall_app. split; [exact Hall|].
      constructor; [|constructor]. apply Hv. now left.
Qed.

Lemma StronglySorted_filter {A : Type} (R : A -> A -> Prop) (f : A -> bool)
      (l : list A) :
  StronglySorted R l -> StronglySorted R (filter f l).
Proof.
  induction 1 as [|a l Hs IH Hall]; cbn [filter]; [constructor|].
  destruct (f a); [|exact IH].
  constructor; [exact IH|].
  rewrite Forall_forall in *. intros b Hb. apply filter_In in Hb.
  apply Hall, Hb.
Qed.

Section ScanOrder.
Variable isGapFn : Z -> bool.

(** An open run starts behind every run already closed. *)
Lemma scan_inv_behind (k : Z) (intervals : list Interval.t) (start : Z)
      (iv : Interval.t) :
  scan_inv isGapFn k (intervals, true, start) -> In iv intervals ->
  Interval.end_ iv + 1 < start.
Proof.
  intros [Hin [Hs [Hrun _]]] Hiv. apply Hin in Hiv.
  destruct Hiv as (_ & _ & _ & _ & _ & Hk & Hgap).
  destruct (Z_lt_le_dec (Interval.end_ iv + 1) start) as [L | G]; [exact L|].
  rewrite Hrun in Hgap by lia. discriminate.
Qed.

Lemma scan_sorted_loop (n : nat) :
  StronglySorted separated
    (fst (fst (fold_left (scan_step isGapFn) (map Z.of_nat (seq 0 n))
                         ([], false, 0)))).
Proof.
  induction n as [|n IH]; [constructor|].
  rewrite seq_S, map_app, fold_left_app. cbn [map fold_left Nat.add].
  pose proof (scan_inv_loop isGapFn n) as Inv.
  destruct (fold_left _ _ _) as [[intervals inContent] start].
  cbn [fst] in IH. unfold scan_step.
  destruct (isGapFn (Z.of_nat n)); cbn [negb].
  - destruct inContent; cbn [fst]; [|exact IH].
    apply StronglySorted_snoc; [exact IH|].
    intros iv Hiv. unfold separated; cbn [Interval.start].
    eapply scan_inv_behind; eauto.
  - destruct inContent; cbn [negb fst]; exact IH.
Qed.

Lemma scan_finish_sorted (length : Z) :
  StronglySorted separated
    (scan_finish length
       (fold_left (scan_step isGapFn) (range length) ([], false, 0))).
Proof.
  unfold range.
  pose proof (scan_sorted_loop (Z.to_nat length)) as Hs.
  pose proof (scan_inv_loop isGapFn (Z.to_nat length)) as Inv.
  destruct (fold_left _ _ _) as [[intervals inContent] start].
  cbn [fst] in Hs. unfold scan_finish.
  destruct inContent; [|exact Hs].
  apply StronglySorted_snoc; [exact Hs|].
  intros iv Hiv. unfold separated; cbn [Interval.start].
  eapply scan_inv_behind; eauto.
Qed.
End ScanOrder.

(** X3: The intervals [findIntervals] returns are in ascending order and two
    consecutive ones are separated by at least one gap position: each
    interval ends at least two positions before the next one starts. *)
Theorem findIntervals_ascending (length : Z) (isGapFn : Z -> bool) :
  StronglySorted (fun a b => Interval.end_ a + 1 < Interval.start b)
                 (findIntervals length isGapFn).
Proof.
  unfold findIntervals. apply StronglySorted_filter.
  apply (scan_finish_sorted isGapFn length).
Qed.

Lemma findIntervals_separated (length : Z) (isGapFn : Z -> bool) :
  StronglySorted separated (findIntervals length isGapFn).
Proof.
  unfold findIntervals. apply StronglySorted_filter, scan_finish_sorted.
Qed.

Lemma retained_Z (length : Z) (iv : Interval.t) :
  retained length iv <-> length < 20 * Interval.size iv.
Proof.
  unfold retained, Qlt, Qmult, inject_Z; cbn [Qnum Qden]. lia.
Qed.

(** Separated intervals inside [lo, hi) cannot be longer than the room
    they have; [total] is 20 times the sum of their sizes. *)
Lemma separated_room (l : list Interval.t) (lo hi : Z) :
  StronglySorted separated l ->
  (forall iv, In iv l ->
     lo <= Interval.start iv /\ Interval.start iv <= Interval.end_ iv /\
     Interval.end_ iv < hi /\
     Interval.size iv = Interval.end_ iv - Interval.start iv + 1) ->
  lo <= hi ->
  fold_right (fun iv acc => Interval.size iv + acc) 0 l <= hi - lo.
Proof.
  intros Hs. revert lo. induction Hs as [|a l Hs IH Hall]; intros lo Hin Hlo.
  - cbn. lia.
  - cbn [fold_right].
    destruct (Hin a (or_introl eq_refl)) as (A1 & A2 & A3 & A4).
    specialize (IH (Interval.end_ a + 1)).
    assert (Hroom : fold_right (fun iv acc => Interval.size iv + acc) 0 l
                    <= hi - (Interval.end_ a + 1)).
    { apply IH; [|lia]. intros iv Hiv.
      destruct (Hin iv (or_intror Hiv)) as (B1 & B2 & B3 & B4).
      rewrite Forall_forall in Hall. specialize (Hall iv Hiv).
      unfold separated in Hall. repeat split; lia. }
    lia.
Qed.

Lemma sizes_above (l : list Interval.t) (length : Z) :
  (forall iv, In iv l -> length < 20 * Interval.size iv) ->
  Z.of_nat (Datatypes.length l) * (length + 1)
  <= 20 * fold_right (fun iv acc => Interval.size iv + acc) 0 l.
Proof.
  induction l as [|a l IH]; intros H; [cbn; lia|].
  cbn [Datatypes.length fold_right].
  specialize (H a (or_introl eq_refl)) as Ha.
  assert (IH' := IH (fun iv Hiv => H iv (or_intror Hiv))).
  lia.
Qed.

(** [findIntervals] keeps at most 19 intervals: each is longer than a
    twentieth of the axis and they do not overlap. *)
Lemma findIntervals_count (length : Z) (isGapFn : Z -> bool) :
  (Datatypes.length (findIntervals length isGapFn) <= 19)%nat.
Proof.
  set (l := findIntervals length isGapFn).
  assert (Hspec : forall iv, In iv l ->
            content_run length isGapFn iv /\ retained length iv)
    by (intros iv; apply findIntervals_spec).
  destruct l as [|a l'] eqn:E; [cbn; lia|]. rewrite <- E in *.
  assert (Hlen : 1 <= length).
  { destruct (Hspec a) as [C _]; [rewrite E; now left|].
    unfold content_run in C. lia. }
  assert (Hroom : fold_right (fun iv acc => Interval.size iv + acc) 0 l
                  <= length - 0).
  { apply separated_room; [apply findIntervals_separated | | lia].
    intros iv Hiv. destruct (Hspec iv Hiv) as [C _].
    unfold content_run in C. lia. }
  assert (Habove := sizes_above l length
            (fun iv Hiv => proj1 (retained_Z length iv) (proj2 (Hspec iv Hiv)))).
  nia.
Qed.

(** X4: A successful gutter detection reports between 1 and 19 rows and
    between 1 and 19 columns (an interval must be longer than 5% of its
    axis and intervals do not overlap), and never more cells than
    [rows * cols]. *)
Theorem detectGridWithGutters_grid_size (img : ImageData.t)
        (g : GridDetectionResult.t) :
  detectGridWithGutters_pixels img = Some g ->
  1 <= GridDetectionResult.rows g <= 19 /\
  1 <= GridDetectionResult.cols g <= 19 /\
  Z.of_nat (length (GridDetectionResult.cells g))
  <= GridDetectionResult.rows g * GridDetectionResult.cols g.
Proof.
  intros H. apply detectGridWithGutters_pixels_some in H. cbv zeta in H.
  destruct H as [Hr [Hc ->]].
  cbn [GridDetectionResult.rows GridDetectionResult.cols GridDetectionResult.cells].
  pose proof (findIntervals_count (ImageData.height img) (isRowGap img)) as Lr.
  pose proof (findIntervals_count (ImageData.width img) (isColumnGap img)) as Lc.
  pose proof (filter_length_le
                (big_enough
                   (medianArea
                      (gutter_cells (findIntervals (ImageData.height img) (isRowGap img))
                                    (findIntervals (ImageData.width img) (isColumnGap img)))))
                (gutter_cells (findIntervals (ImageData.height img) (isRowGap img))
                              (findIntervals (ImageData.width img) (isColumnGap img))))
    as Hf.
  rewrite gutter_cells_length in Hf.
  destruct (findIntervals (ImageData.height img) (isRowGap img)); [congruence|].
  destruct (findIntervals (ImageData.width img) (isColumnGap img)); [congruence|].
  cbn [Datatypes.length] in *. nia.
Qed.

Lemma detectGridWithGutters_grid_size_witness :
  1 <= 1 <= 19 /\ 1 <= 2 <= 19 /\ Z.of_nat 2 <= 1 * 2.
Proof.
  apply (detectGridWithGutters_grid_size two_dots
           (GridDetectionResult.mk 1 2
              [ GridCell.mk 0 0 1 1; GridCell.mk 2 0 1 1 ] 0.95%R)).
  reflexivity.
Defined.

(** ** The gutter cells do not overlap *)

Lemma ForallOrdPairs_app {A : Type} (P : A -> A -> Prop) (l1 l2 : list A) :
  ForallOrdPairs P l1 -> ForallOrdPairs P l2 ->
  (forall a b, In a l1 -> In b l2 -> P a b) ->
  ForallOrdPairs P (l1 ++ l2).
Proof.
  induction 1 as [|a l1 Ha H1 IH]; intros H2 Hx; cbn [app]; [exact H2|].
  constructor.
  - apply Forall_app. split; [exact Ha|].
    apply Forall_forall. intros b Hb. apply Hx; [now left | exact Hb].
  - apply IH; [exact H2|]. intros a' b Ha' Hb. apply Hx; [now right | exact Hb].
Qed.

Lemma ForallOrdPairs_map_sorted {A B : Type} (R : A -> A -> Prop)
      (P : B -> B -> Prop) (f : A -> B) (l : list A) :
  (forall a b, In a l -> In b l -> R a b -> P (f a) (f b)) ->
  StronglySorted R l -> ForallOrdPairs P (map f l).
Proof.
  intros HP. induction 1 as [|a l Hs IH Hall]; cbn [map]; constructor.
  - apply Forall_forall. intros y Hy. apply in_map_iff in Hy.
    destruct Hy as [b [<- Hb]]. rewrite Forall_forall in Hall.
    apply HP; [now left | now right | now apply Hall].
  - apply IH. intros b c Hb Hc. apply HP; now right.
Qed.

Lemma ForallOrdPairs_filter {A : Type} (P : A -> A -> Prop) (f : A -> bool)
      (l : list A) :
  ForallOrdPairs P l -> ForallOrdPairs P (filter f l).
Proof.
  induction 1 as [|a l Ha H IH]; cbn [filter]; [constructor|].
  destruct (f a); [|exact IH].
  constructor; [|exact IH].
  rewrite Forall_forall in *. intros b Hb. apply filter_In in Hb. apply Ha, Hb.
Qed.

Lemma gutter_cells_disjoint (rowIntervals colIntervals : list Interval.t) :
  StronglySorted separated rowIntervals ->
  StronglySorted separated colIntervals ->
  (forall iv, In iv rowIntervals \/ In iv colIntervals ->
              Interval.size iv = Interval.end_ iv - Interval.start iv + 1) ->
  ForallOrdPairs cells_disjoint (gutter_cells rowIntervals colIntervals).
Proof.
  intros Hr Hc Hsize. unfold gutter_cells.
  induction Hr as [|r rows Hr IH Hall]; cbn [flat_map]; [constructor|].
  apply ForallOrdPairs_app.
  - apply (ForallOrdPairs_map_sorted separated); [|exact Hc].
    intros a b Ha Hb Hab. unfold separated in Hab. unfold cells_disjoint; cbn.
    rewrite (Hsize a) by now right. lia.
  - apply IH. intros iv [Hiv | Hiv]; apply Hsize; [left; now right | now right].
  - intros a b Ha Hb. apply in_map_iff in Ha. destruct Ha as [ca [<- Hca]].
    apply in_flat_map in Hb. destruct Hb as [r' [Hr' Hb]].
    apply in_map_iff in Hb. destruct Hb as [cb [<- Hcb]].
    rewrite Forall_forall in Hall. specialize (Hall r' Hr').
    unfold separated in Hall. unfold cells_disjoint; cbn.
    rewrite (Hsize r) by (left; now left). lia.
Qed.

(** X5: No two cells of a gutter detection share a pixel. *)
Theorem detectGridWithGutters_cells_disjoint (img : ImageData.t)
        (g : GridDetectionResult.t) :
  detectGridWithGutters_pixels img = Some g ->
  ForallOrdPairs
    (fun a b =>
       GridCell.x a + GridCell.width a <= GridCell.x b \/
       GridCell.x b + GridCell.width b <= GridCell.x a \/
       GridCell.y a + GridCell.height a <= GridCell.y b \/
       GridCell.y b + GridCell.height b <= GridCell.y a)
    (GridDetectionResult.cells g).
Proof.
  intros H. apply detectGridWithGutters_pixels_some in H. cbv zeta in H.
  destruct H as [_ [_ ->]]. cbn [GridDetectionResult.cells].
  apply ForallOrdPairs_filter.
  apply gutter_cells_disjoint; try apply findIntervals_separated.
  intros iv [Hiv | Hiv]; apply findIntervals_spec in Hiv;
    destruct Hiv as [C _]; unfold content_run in C; tauto.
Qed.

Lemma detectGridWithGutters_cells_disjoint_witness :
  ForallOrdPairs
    (fun a b =>
       GridCell.x a + GridCell.width a <= GridCell.x b \/
       GridCell.x b + GridCell.width b <= GridCell.x a \/
       GridCell.y a + GridCell.height a <= GridCell.y b \/
       GridCell.y b + GridCell.height b <= GridCell.y a)
    [ GridCell.mk 0 0 1 1; GridCell.mk 2 0 1 1 ].
Proof.
  apply (detectGridWithGutters_cells_disjoint two_dots
           (GridDetectionResult.mk 1 2
              [ GridCell.mk 0 0 1 1; GridCell.mk 2 0 1 1 ] 0.95%R)).
  reflexivity.
Defined.

(** ** Images without gutters, images without content *)

Section Uniform.
Variable isGapFn : Z -> bool.

Lemma scan_all_content (n : nat) :
  (forall i, 0 <= i < Z.of_nat (S n) -> isGapFn i = false) ->
  fold_left (scan_step isGapFn) (map Z.of_nat (seq 0 (S n))) ([], false, 0)
  = ([], true, 0).
Proof.
  induction n as [|n IH]; intros H.
  - cbn. rewrite (H 0) by lia. reflexivity.
  - rewrite seq_S, map_app, fold_left_app, IH by (intros i Hi; apply H; lia).
    cbn [map fold_left Nat.add]. unfold scan_step.
    rewrite (H (Z.of_nat (S n))) by lia. reflexivity.
Qed.

Lemma findIntervals_all_content (length : Z) :
  1 <= length -> (forall i, 0 <= i < length -> isGapFn i = false) ->
  findIntervals length isGapFn = [Interval.mk 0 (length - 1) length].
Proof.
  intros Hlen H. unfold findIntervals, range.
  destruct (Z.to_nat length) as [|n] eqn:E; [lia|].
  rewrite scan_all_content by (intros i Hi; apply H; lia).
  cbn [scan_finish app filter]. rewrite Z.sub_0_r.
  assert (T : not_tiny length (Interval.mk 0 (length - 1) length) = true).
  { apply not_tiny_retained, retained_Z. cbn [Interval.size]. lia. }
  now rewrite T.
Qed.

Lemma findIntervals_all_gaps (length : Z) :
  (forall i, 0 <= i < length -> isGapFn i = true) ->
  findIntervals length isGapFn = [].
Proof.
  intros H. apply (nil_iff_no_member _ _ (findIntervals_spec length isGapFn)).
  intros [iv [C _]]. unfold content_run in C.
  destruct C as (C1 & C2 & C3 & _ & C5 & _).
  specialize (C5 (Interval.start iv) ltac:(lia)).
  rewrite (H (Interval.start iv)) in C5 by lia. discriminate.
Qed.
End Uniform.

Section PixelsAndGaps.
Local Open Scope Q_scope.

Lemma Qltb_false (a b : Q) : Qltb a b = false <-> b <= a.
Proof.
  unfold Qltb. rewrite negb_false_iff. apply Qle_bool_iff.
Qed.

Lemma fold_sum_lt (g : Z -> Q) (c : Q) (l : list Z) (a : Q) :
  l <> [] -> (forall y, In y l -> g y < c) ->
  fold_left (fun acc y => acc + g y) l a
  < a + c * inject_Z (Z.of_nat (length l)).
Proof.
  intros Hne. revert a. induction l as [|y l IH]; intros a H; [congruence|].
  cbn [fold_left length]. rewrite Nat2Z.inj_succ. unfold Z.succ.
  rewrite inject_Z_plus. change (inject_Z 1) with 1.
  pose proof (H y (or_introl eq_refl)) as Hy.
  destruct l as [|y' l'].
  - cbn [fold_left length]. change (inject_Z (Z.of_nat 0)) with 0. lra.
  - specialize (IH ltac:(discriminate) (a + g y) (fun z Hz => H z (or_intror Hz))).
    lra.
Qed.

Lemma fold_sum_ge (g : Z -> Q) (c : Q) (l : list Z) (a : Q) :
  (forall y, In y l -> c <= g y) ->
  a + c * inject_Z (Z.of_nat (length l))
  <= fold_left (fun acc y => acc + g y) l a.
Proof.
  revert a. induction l as [|y l IH]; intros a H.
  - cbn [fold_left length]. change (inject_Z (Z.of_nat 0)) with 0. lra.
  - cbn [fold_left length]. rewrite Nat2Z.inj_succ. unfold Z.succ.
    rewrite inject_Z_plus. change (inject_Z 1) with 1.
    pose proof (H y (or_introl eq_refl)) as Hy.
    specialize (IH (a + g y) (fun z Hz => H z (or_intror Hz))). lra.
Qed.

Lemma mean_lt (g : Z -> Q) (c : Q) (n : Z) :
  (1 <= n)%Z -> (forall y, (0 <= y < n)%Z -> g y < c) ->
  fold_left (fun acc y => acc + g y) (range n) 0 / inject_Z n < c.
Proof.
  intros Hn H.
  assert (Hpos : 0 < inject_Z n).
  { change 0 with (inject_Z 0). rewrite <- Zlt_Qlt. lia. }
  apply Qlt_shift_div_r; [exact Hpos|].
  pose proof (fold_sum_lt g c (range n) 0) as S.
  rewrite length_range, Z2Nat.id in S by lia.
  assert (E : range n <> []).
  { intros E. apply (f_equal (@length _)) in E. rewrite length_range in E.
    cbn in E. lia. }
  specialize (S E (fun y Hy => H y (proj1 (In_range y n) Hy))). lra.
Qed.

Lemma mean_ge (g : Z -> Q) (c : Q) (n : Z) :
  (1 <= n)%Z -> (forall y, (0 <= y < n)%Z -> c <= g y) ->
  c <= fold_left (fun acc y => acc + g y) (range n) 0 / inject_Z n.
Proof.
  intros Hn H.
  assert (Hpos : 0 < inject_Z n).
  { change 0 with (inject_Z 0). rewrite <- Zlt_Qlt. lia. }
  apply Qle_shift_div_l; [exact Hpos|].
  pose proof (fold_sum_ge g c (range n) 0) as S.
  rewrite length_range, Z2Nat.id in S by lia.
  specialize (S (fun y Hy => H y (proj1 (In_range y n) Hy))). lra.
Qed.

(** X6: In an image of height at least 1, a column whose pixels all have
    brightness below 30 is a gap and a column whose pixels all have
    brightness 30 or more is content; likewise for the rows of an image of
    width at least 1. *)
Theorem gaps_from_pixels (img : ImageData.t) :
  (1 <= ImageData.width img)%Z -> (1 <= ImageData.height img)%Z ->
  (forall x,
      (forall y, (0 <= y < ImageData.height img)%Z -> brightness img x y < 30) ->
      isColumnGap img x = true) /\
  (forall x,
      (forall y, (0 <= y < ImageData.height img)%Z -> 30 <= brightness img x y) ->
      isColumnGap img x = false) /\
  (forall y,
      (forall x, (0 <= x < ImageData.width img)%Z -> brightness img x y < 30) ->
      isRowGap img y = true) /\
  (forall y,
      (forall x, (0 <= x < ImageData.width img)%Z -> 30 <= brightness img x y) ->
      isRowGap img y = false).
Proof.
  intros Hw Hh. unfold isColumnGap, isRowGap, colSums, rowSums.
  split; [|split; [|split]].
  - intros x H. apply Qltb_lt.
    exact (mean_lt (fun y => brightness img x y) 30 _ Hh H).
  - intros x H. apply Qltb_false.
    exact (mean_ge (fun y => brightness img x y) 30 _ Hh H).
  - intros y H. apply Qltb_lt.
    exact (mean_lt (fun x => brightness img x y) 30 _ Hw H).
  - intros y H. apply Qltb_false.
    exact (mean_ge (fun x => brightness img x y) 30 _ Hw H).
Qed.

Lemma gaps_from_pixels_witness : isColumnGap black_pixel 0 = true.
Proof.
  apply (gaps_from_pixels black_pixel); try (cbn; lia).
  intros y Hy. cbn in Hy. assert (y = 0%Z) as -> by lia. reflexivity.
Defined.
End PixelsAndGaps.

Section GutterEdgeCases.
Variable loadImage : string -> option ImageData.t.
Variable getContext2d : bool.
Variable cropToDataURL : ImageData.t -> GridCell.t -> string.

Lemma detectAndSplitGrid_falls_back (imageDataUrl : string) (img : ImageData.t) :
  loadImage imageDataUrl = Some img -> getContext2d = true ->
  needs_fallback (detectGridWithGutters_pixels img) = true ->
  exists heuristic,
    analyzeGridFromImageData img = Some heuristic /\
    detectAndSplitGrid loadImage getContext2d cropToDataURL imageDataUrl =
    Resolved (heuristic,
              map (cropToDataURL img) (GridDetectionResult.cells heuristic)).
Proof.
  intros Himg Hctx Hfb.
  destruct (detectGrid_resolves loadImage getContext2d imageDataUrl img Himg Hctx)
    as [heuristic [Ha Hh]].
  exists heuristic. split; [exact Ha|].
  unfold detectAndSplitGrid, detectGridWithGutters. rewrite Himg.
  rewrite Hctx in Hh |- *.
  cbn [await]. rewrite Hfb, Hh. cbn [await].
  now rewrite (splitImage_map loadImage true cropToDataURL _ img _ Himg eq_refl).
Qed.

(** X7: In an image where no column and no row is dark enough to be a gap,
    the gutter detector finds one cell, the whole image, with [rows = cols
    = 1]; [detectAndSplitGrid] then discards it and returns the grid of
    the geometric detector. *)
Theorem no_gutters_single_cell (imageDataUrl : string) (img : ImageData.t) :
  loadImage imageDataUrl = Some img -> getContext2d = true ->
  1 <= ImageData.width img -> 1 <= ImageData.height img ->
  (forall x, 0 <= x < ImageData.width img -> isColumnGap img x = false) ->
  (forall y, 0 <= y < ImageData.height img -> isRowGap img y = false) ->
  detectGridWithGutters_pixels img =
  Some (GridDetectionResult.mk 1 1
          [GridCell.mk 0 0 (ImageData.width img) (ImageData.height img)]
          0.95%R) /\
  exists heuristic,
    analyzeGridFromImageData img = Some heuristic /\
    detectAndSplitGrid loadImage getContext2d cropToDataURL imageDataUrl =
    Resolved (heuristic,
              map (cropToDataURL img) (GridDetectionResult.cells heuristic)).
Proof.
  intros Himg Hctx Hw Hh Hcols Hrows.
  assert (E : detectGridWithGutters_pixels img =
              Some (GridDetectionResult.mk 1 1
                      [GridCell.mk 0 0 (ImageData.width img) (ImageData.height img)]
                      0.95%R)).
  { unfold detectGridWithGutters_pixels.
    rewrite !findIntervals_all_content by assumption.
    cbn [length Nat.eqb orb gutter_cells flat_map map app
         Interval.start Interval.size Z.of_nat].
    assert (B : big_enough
                  (medianArea [GridCell.mk 0 0 (ImageData.width img) (ImageData.height img)])
                  (GridCell.mk 0 0 (ImageData.width img) (ImageData.height img)) = true).
    { apply big_enough_Z.
      change (medianArea [GridCell.mk 0 0 (ImageData.width img) (ImageData.height img)])
        with (ImageData.width img * ImageData.height img).
      unfold area; cbn [GridCell.width GridCell.height]. nia. }
    cbn [filter]. rewrite B. reflexivity. }
  split; [exact E|].
  apply detectAndSplitGrid_falls_back; try assumption.
  rewrite E. reflexivity.
Qed.

(** X8: In an image whose columns are all gaps, or whose rows are all gaps,
    the gutter detector finds nothing and [detectAndSplitGrid] returns the
    grid of the geometric detector. *)
Theorem all_gaps_no_grid (imageDataUrl : string) (img : ImageData.t) :
  loadImage imageDataUrl = Some img -> getContext2d = true ->
  (forall x, 0 <= x < ImageData.width img -> isColumnGap img x = true) \/
  (forall y, 0 <= y < ImageData.height img -> isRowGap img y = true) ->
  detectGridWithGutters_pixels img = None /\
  exists heuristic,
    analyzeGridFromImageData img = Some heuristic /\
    detectAndSplitGrid loadImage getContext2d cropToDataURL imageDataUrl =
    Resolved (heuristic,
              map (cropToDataURL img) (GridDetectionResult.cells heuristic)).
Proof.
  intros Himg Hctx Hgaps.
  assert (E : detectGridWithGutters_pixels img = None).
  { apply detectGridWithGutters_pixels_none.
    destruct Hgaps as [H | H]; [right | left]; now apply findIntervals_all_gaps. }
  split; [exact E|].
  apply detectAndSplitGrid_falls_back; try assumption.
  rewrite E. reflexivity.
Qed.
End GutterEdgeCases.

Lemma no_gutters_single_cell_witness :
  detectGridWithGutters_pixels white_pixel =
  Some (GridDetectionResult.mk 1 1 [GridCell.mk 0 0 1 1] 0.95%R).
Proof.
  apply (no_gutters_single_cell (fun _ => Some white_pixel) true
           (fun _ _ => EmptyString) EmptyString white_pixel);
    try reflexivity; try (cbn; lia);
    intros i Hi; cbn in Hi; assert (i = 0) as -> by lia; reflexivity.
Defined.

Lemma all_gaps_no_grid_witness :
  detectGridWithGutters_pixels black_pixel = None.
Proof.
  apply (all_gaps_no_grid (fun _ => Some black_pixel) true
           (fun _ _ => EmptyString) EmptyString black_pixel);
    try reflexivity.
  left. intros i Hi. cbn in Hi. assert (i = 0) as -> by lia. reflexivity.
Defined.

(** ** Edge profiles and edge score *)

Section EdgeProfiles.
Local Open Scope Q_scope.

Lemma fold_sum_le (g : Z -> Q) (c : Q) (l : list Z) (a : Q) :
  (forall y, In y l -> g y <= c) ->
  fold_left (fun acc y => acc + g y) l a
  <= a + c * inject_Z (Z.of_nat (length l)).
Proof.
  revert a. induction l as [|y l IH]; intros a H.
  - cbn [fold_left length]. change (inject_Z (Z.of_nat 0)) with 0. lra.
  - cbn [fold_left length]. rewrite Nat2Z.inj_succ. unfold Z.succ.
    rewrite inject_Z_plus. change (inject_Z 1) with 1.
    pose proof (H y (or_introl eq_refl)) as Hy.
    specialize (IH (a + g y) (fun z Hz => H z (or_intror Hz))). lra.
Qed.

(** The mean of [n] values between 0 and [c] is between 0 and [c]; the
    mean over an empty range is 0. *)
Lemma mean_between (g : Z -> Q) (c : Q) (n : Z) :
  0 <= c -> (forall y, (0 <= y < n)%Z -> 0 <= g y <= c) ->
  0 <= fold_left (fun acc y => acc + g y) (range n) 0 / inject_Z n <= c.
Proof.
  intros Hc H. destruct (Z_lt_le_dec n 1) as [Hn | Hn].
  - unfold range. replace (Z.to_nat n) with 0%nat by lia.
    cbn [seq map fold_left]. unfold Qdiv. rewrite Qmult_0_l. split; [lra | exact Hc].
  - assert (Hpos : 0 < inject_Z n).
    { change 0 with (inject_Z 0). rewrite <- Zlt_Qlt. lia. }
    pose proof (fold_sum_ge g 0 (range n) 0
                  (fun y Hy => proj1 (H y (proj1 (In_range y n) Hy)))) as Lo.
    pose proof (fold_sum_le g c (range n) 0
                  (fun y Hy => proj2 (H y (proj1 (In_range y n) Hy)))) as Hi.
    rewrite length_range, Z2Nat.id in Lo, Hi by lia.
    split.
    + apply Qle_shift_div_l; [exact Hpos | lra].
    + apply Qle_shift_div_r; [exact Hpos | lra].
Qed.

Lemma ImageData_get_byte (img : ImageData.t) (i : Z) :
  Forall (fun b => (0 <= b <= 255)%Z) (ImageData.data img) ->
  (0 <= ImageData.get img i <= 255)%Z.
Proof.
  intros F. unfold ImageData.get.
  destruct (nth_in_or_default (Z.to_nat i) (ImageData.data img) 0%Z) as [H | ->].
  - rewrite Forall_forall in F. now apply F.
  - lia.
Qed.

Lemma gradient_between (img : ImageData.t) (idxA idxB : Z) :
  Forall (fun b => (0 <= b <= 255)%Z) (ImageData.data img) ->
  0 <= gradient img idxA idxB <= 255.
Proof.
  intros F. unfold gradient.
  pose proof (ImageData_get_byte img idxA F).
  pose proof (ImageData_get_byte img idxB F).
  pose proof (ImageData_get_byte img (idxA + 1) F).
  pose proof (ImageData_get_byte img (idxB + 1) F).
  pose proof (ImageData_get_byte img (idxA + 2) F).
  pose proof (ImageData_get_byte img (idxB + 2) F).
  set (s := (Z.abs _ + Z.abs _ + Z.abs _)%Z).
  assert (Hs : (0 <= s <= 765)%Z) by (subst s; lia).
  unfold Qle, Qdiv, Qmult, Qinv, inject_Z; cbn [Qnum Qden]. lia.
Qed.

Lemma profile_get_map (f : Z -> Q) (n pos : Z) :
  (0 <= pos < n)%Z -> profile_get (map f (range n)) pos = f pos.
Proof.
  intros H. unfold profile_get.
  apply nth_error_nth. rewrite nth_error_map, nth_error_range by lia.
  cbn [option_map]. now rewrite Z2Nat.id by lia.
Qed.

(** X9: Each edge profile has one entry per column (per row); if the buffer
    holds bytes, every entry lies between 0 and 255; the entries of the
    first and of the last column (row) are 0. *)
Theorem edge_profiles_shape (img : ImageData.t) :
  Forall (fun b => (0 <= b <= 255)%Z) (ImageData.data img) ->
  let vertical := calculateVerticalEdgeProfile img in
  let horizontal := calculateHorizontalEdgeProfile img in
  length vertical = Z.to_nat (ImageData.width img) /\
  length horizontal = Z.to_nat (ImageData.height img) /\
  (forall q, In q vertical -> 0 <= q <= 255) /\
  (forall q, In q horizontal -> 0 <= q <= 255) /\
  profile_get vertical 0 = 0 /\
  profile_get vertical (ImageData.width img - 1) = 0 /\
  profile_get horizontal 0 = 0 /\
  profile_get horizontal (ImageData.height img - 1) = 0.
Proof.
  intros F vertical horizontal.
  subst vertical horizontal.
  unfold calculateVerticalEdgeProfile, calculateHorizontalEdgeProfile.
  split; [now rewrite length_map, length_range|].
  split; [now rewrite length_map, length_range|].
  split; [|split].
  - intros q Hq. apply in_map_iff in Hq. destruct Hq as [x [<- _]].
    destruct (_ && _)%bool; [|split; discriminate].
    apply (mean_between (fun y => gradient img _ _)); [discriminate|].
    intros y _. now apply gradient_between.
  - intros q Hq. apply in_map_iff in Hq. destruct Hq as [y [<- _]].
    destruct (_ && _)%bool; [|split; discriminate].
    apply (mean_between (fun x => gradient img _ _)); [discriminate|].
    intros x _. now apply gradient_between.
  - assert (Border : forall (f : Z -> Q) n pos,
              (pos = 0 \/ pos = n - 1)%Z ->
              profile_get
                (map (fun x => if ((1 <=? x) && (x <? n - 1))%Z then f x else 0)
                     (range n)) pos = 0).
    { intros f n pos Hpos.
      destruct (Z_lt_le_dec pos 0) as [Neg | NonNeg];
        [|destruct (Z_lt_le_dec pos n) as [In | Out]].
      - unfold profile_get, range. replace (Z.to_nat n) with 0%nat by lia.
        cbn. now destruct (Z.to_nat pos).
      - rewrite profile_get_map by lia.
        destruct (Z.leb_spec 1 pos), (Z.ltb_spec pos (n - 1)); cbn [andb];
          try reflexivity; lia.
      - unfold profile_get. apply nth_overflow.
        rewrite length_map, length_range. lia. }
    repeat split; apply Border; lia.
Qed.

Lemma edge_profiles_shape_witness :
  length (calculateVerticalEdgeProfile white_first_column) = Z.to_nat 10.
Proof.
  apply (edge_profiles_shape white_first_column).
  unfold white_first_column; cbn [ImageData.data].
  apply Forall_forall. intros b Hb.
  apply in_flat_map in Hb. destruct Hb as [y [_ Hb]].
  apply in_flat_map in Hb. destruct Hb as [x [_ Hb]].
  destruct (x =? 0)%Z; cbn in Hb; intuition lia.
Defined.

(** *** Profiles without edges *)

Lemma baseline_flat (profile : list Q) :
  (forall q, In q profile -> q == 0) -> Qltb 0 (baseline profile) = false.
Proof.
  intros H. apply Qltb_false. unfold baseline.
  assert (S : forall a, a == 0 -> fold_left Qplus profile a == 0).
  { induction profile as [|q l IH]; intros a Ha; cbn [fold_left]; [exact Ha|].
    apply IH; [intros q' Hq'; apply H; now right|].
    rewrite Ha, (H q (or_introl eq_refl)). reflexivity. }
  rewrite (S 0 (Qeq_refl 0)). unfold Qdiv. rewrite Qmult_0_l. apply Qle_refl.
Qed.

Lemma score_axis_guarded (profile : list Q) (base : Q)
      (limit parts searchWindow : Z) (st : Q * Z) :
  Qltb 0 base = false ->
  fst st == inject_Z (snd st) ->
  fst (score_axis profile base limit parts searchWindow st)
  == inject_Z (snd (score_axis profile base limit parts searchWindow st)).
Proof.
  intros Hbase. unfold score_axis. rewrite Hbase.
  destruct (1 <? parts)%Z; [|auto].
  generalize (range_incl 1 (parts - 1)). intros l. revert st.
  induction l as [|i l IH]; intros st Hst; cbn [fold_left]; [exact Hst|].
  apply IH. cbn [fst snd]. rewrite inject_Z_plus, Hst.
  change (Qmin 1 3) with 1. reflexivity.
Qed.

Lemma average_one (totalRatio : Q) (divisions : Z) :
  divisions <> 0%Z -> totalRatio == inject_Z divisions ->
  Qmin ((totalRatio / inject_Z divisions - 1) / 2) 1 == 0.
Proof.
  intros NE H.
  assert (Hpos : ~ inject_Z divisions == 0).
  { intros E. unfold Qeq, inject_Z in E; cbn [Qnum Qden] in E. lia. }
  assert (Havg : totalRatio / inject_Z divisions == 1).
  { rewrite H. field. exact Hpos. }
  rewrite Havg. reflexivity.
Qed.

Lemma scoreGridByEdges_flat (rows cols width height : Z) (vp hp : list Q) :
  (forall q, In q vp -> q == 0) -> (forall q, In q hp -> q == 0) ->
  scoreGridByEdges rows cols width height vp hp == 0.
Proof.
  intros Hv Hh. unfold scoreGridByEdges.
  set (sw := Z.max 3 _).
  assert (H0 : fst (0, 0%Z) == inject_Z (snd (0, 0%Z))) by reflexivity.
  pose proof (score_axis_guarded hp (baseline hp) height rows sw _
                (baseline_flat hp Hh)
                (score_axis_guarded vp (baseline vp) width cols sw _
                   (baseline_flat vp Hv) H0)) as H.
  destruct (score_axis hp _ _ _ _ _) as [totalRatio divisions].
  cbn [fst snd] in H.
  destruct (Z.eqb_spec divisions 0) as [E | NE]; [reflexivity|].
  now apply average_one.
Qed.

(** When neither profile has a positive mean (no edge strength to
    compare with), the division guard takes every ratio as 1 and the edge
    score is 0 for every grid; this is the case when both profiles are
    zero everywhere. *)
Theorem scoreGridByEdges_no_edges (rows cols width height : Z) (vp hp : list Q) :
  (baseline vp <= 0 \/ forall q, In q vp -> q == 0) ->
  (baseline hp <= 0 \/ forall q, In q hp -> q == 0) ->
  scoreGridByEdges rows cols width height vp hp == 0.
Proof.
  intros Hv Hh.
  assert (Gv : Qltb 0 (baseline vp) = false).
  { destruct Hv as [Hv | Hv]; [now apply Qltb_false | now apply baseline_flat]. }
  assert (Gh : Qltb 0 (baseline hp) = false).
  { destruct Hh as [Hh | Hh]; [now apply Qltb_false | now apply baseline_flat]. }
  unfold scoreGridByEdges.
  set (sw := Z.max 3 _).
  assert (H0 : fst (0, 0%Z) == inject_Z (snd (0, 0%Z))) by reflexivity.
  pose proof (score_axis_guarded hp (baseline hp) height rows sw _ Gh
                (score_axis_guarded vp (baseline vp) width cols sw _ Gv H0)) as H.
  destruct (score_axis hp _ _ _ _ _) as [totalRatio divisions].
  cbn [fst snd] in H.
  destruct (Z.eqb_spec divisions 0) as [E | NE]; [reflexivity|].
  now apply average_one.
Qed.

Lemma scoreGridByEdges_no_edges_witness :
  scoreGridByEdges 2 3 30 20 [0; 0; 0] [0; 0] == 0.
Proof.
  apply scoreGridByEdges_no_edges; right; intros q Hq; cbn in Hq;
    intuition (subst; reflexivity).
Defined.

(** X11: The edge score never exceeds 1 and never goes below -1/2 (it is not
    clamped at 0); in the combined score of the selection loop it moves a
    candidate's [0.8 score] by no less than -0.1 and no more than 0.2. *)
Theorem scoreGridByEdges_bounds (rows cols width height : Z) (vp hp : list Q)
        (img : ImageData.t) (candidate : GridCandidate.t) :
  - (1 # 2) <= scoreGridByEdges rows cols width height vp hp <= 1 /\
  (GridCandidate.score candidate * 0.8 - 0.1 <= combinedScore img candidate
   <= GridCandidate.score candidate * 0.8 + 0.2)%R.
Proof.
  split; [apply scoreGridByEdges_range|].
  unfold combinedScore.
  destruct (scoreGridByEdges_range
              (GridCandidate.rows candidate) (GridCandidate.cols candidate)
              (ImageData.width img) (ImageData.height img)
              (calculateVerticalEdgeProfile img) (calculateHorizontalEdgeProfile img))
    as [Lo Hi].
  apply Qle_Rle in Lo, Hi.
  replace (Q2R (- (1 # 2))) with (- (1 / 2))%R in Lo by (unfold Q2R; cbn; lra).
  replace (Q2R 1) with 1%R in Hi by (unfold Q2R; cbn; lra).
  lra.
Qed.
End EdgeProfiles.

(** ** Scores and choice of the geometric detector *)

Section GeometricChoice.
Local Open Scope R_scope.

Lemma aspectRatioScore_between (ratio : R) :
  0 < ratio -> 0 <= aspectRatioScore ratio <= 1.
Proof.
  intros Hr.
  destruct (aspectRatioScore_min ratio Hr) as [d [[c [Hc Hd]] [_ Hs]]].
  assert (Hd0 : 0 <= d).
  { rewrite Hd. apply symmetric_distance_nonneg; [exact Hr|].
    now apply COMMON_ASPECT_RATIOS_pos. }
  rewrite Hs. apply Math_exp_between. lra.
Qed.

Lemma exp_nonpos_between (t : R) : t <= 0 -> 0 < exp t <= 1.
Proof.
  intros Ht. split; [apply exp_pos|].
  rewrite <- exp_0. destruct Ht as [Hlt | ->]; [left; now apply exp_increasing | lra].
Qed.

Lemma gridSymmetry_between (rows cols : Z) :
  (1 <= rows)%Z -> (1 <= cols)%Z -> 0 <= gridSymmetry rows cols <= 1.
Proof.
  intros Hr Hc. unfold gridSymmetry.
  assert (Hm : 0 < IZR (Z.max rows cols)) by (apply IZR_lt; lia).
  assert (Ha : 0 <= IZR (Z.abs (rows - cols))) by (apply IZR_le; lia).
  assert (Hle : IZR (Z.abs (rows - cols)) <= IZR (Z.max rows cols))
    by (apply IZR_le; lia).
  assert (E : IZR (Z.abs (rows - cols)) / IZR (Z.max rows cols)
              * IZR (Z.max rows cols) = IZR (Z.abs (rows - cols)))
    by (field; lra).
  split; nra.
Qed.

Lemma gridCandidate_score_between (width height : R) (rows cols : Z) :
  0 < width -> 0 < height -> (1 <= rows <= 6)%Z -> (1 <= cols <= 6)%Z ->
  0 < GridCandidate.score (gridCandidate width height rows cols) <= 1.
Proof.
  intros Hw Hh Hr Hc. rewrite gridCandidate_score by (assumption || lia).
  assert (Hrr : 0 < IZR rows) by (apply IZR_lt; lia).
  assert (Hcc : 0 < IZR cols) by (apply IZR_lt; lia).
  assert (A : 0 <= cellARScore width height rows cols <= 1).
  { apply aspectRatioScore_between.
    repeat apply Rdiv_lt_0_compat; assumption. }
  assert (L : 0 <= layoutScore width height rows cols <= 1).
  { apply Math_exp_between.
    pose proof (symmetric_distance_nonneg (width / height) (IZR cols / IZR rows)
                  ltac:(apply Rdiv_lt_0_compat; assumption)
                  ltac:(apply Rdiv_lt_0_compat; assumption)).
    lra. }
  assert (C : 0 < cellCountScore rows cols <= 1).
  { unfold cellCountScore. destruct (Z.leb_spec (rows * cols) 6); [lra|].
    apply exp_nonpos_between.
    assert (6 < IZR (rows * cols)) by (apply IZR_lt; lia). lra. }
  pose proof (gridSymmetry_between rows cols ltac:(lia) ltac:(lia)) as S.
  lra.
Qed.

(** X12: For an image of positive width and height every candidate's
    geometric score lies in (0,1]. *)
Theorem getGridCandidates_scores (width height : Z) :
  (0 < width)%Z -> (0 < height)%Z ->
  Forall (fun c => 0 < GridCandidate.score c <= 1)
         (getGridCandidates width height).
Proof.
  intros Hw Hh. apply Forall_forall. intros c Hc.
  rewrite getGridCandidates_sort in Hc.
  apply (Permutation_in _ (Permutation_sym (Array_sort_perm _ _))) in Hc.
  apply In_generated in Hc. destruct Hc as [rows [cols [[Hr [Hcl _]] ->]]].
  apply gridCandidate_score_between; try lia; now apply IZR_lt.
Qed.

Lemma getGridCandidates_scores_witness :
  Forall (fun c => 0 < GridCandidate.score c <= 1) (getGridCandidates 4 3).
Proof.
  apply (getGridCandidates_scores 4 3); lia.
Defined.

(** *** The selection loop *)

Lemma pick_step_combined (img : ImageData.t) (st : GridCandidate.t * option R)
      (c : GridCandidate.t) :
  pick_step img (calculateVerticalEdgeProfile img)
            (calculateHorizontalEdgeProfile img) st c =
  match snd st with
  | None => (c, Some (combinedScore img c))
  | Some s => if Rgt_dec (combinedScore img c) s
              then (c, Some (combinedScore img c)) else st
  end.
Proof. reflexivity. Qed.

(** From a state whose score is the combined score of its candidate,
    the loop ends on a candidate of the list (or the one it started with)
    whose combined score is the largest seen. *)
Lemma pick_fold_max (img : ImageData.t) (l : list GridCandidate.t)
      (b : GridCandidate.t) :
  exists best,
    fold_left (pick_step img (calculateVerticalEdgeProfile img)
                         (calculateHorizontalEdgeProfile img))
              l (b, Some (combinedScore img b))
    = (best, Some (combinedScore img best)) /\
    (best = b \/ In best l) /\
    combinedScore img b <= combinedScore img best /\
    (forall c, In c l -> combinedScore img c <= combinedScore img best).
Proof.
  revert b. induction l as [|c l IH]; intros b; cbn [fold_left].
  - exists b. repeat split; [now left | lra | intros c []].
  - rewrite pick_step_combined. cbn [snd].
    destruct (Rgt_dec (combinedScore img c) (combinedScore img b)) as [G | G].
    + destruct (IH c) as [best [E [Hin [Hle Hall]]]].
      exists best. split; [exact E|]. split; [|split].
      * right. destruct Hin as [-> | Hin]; [now left | now right].
      * lra.
      * intros c' [<- | Hc']; [exact Hle | now apply Hall].
    + destruct (IH b) as [best [E [Hin [Hle Hall]]]].
      exists best. split; [exact E|]. split; [|split].
      * destruct Hin as [-> | Hin]; [now left | right; now right].
      * exact Hle.
      * intros c' [<- | Hc']; [lra | now apply Hall].
Qed.

Lemma analyzeGridFromImageData_best (img : ImageData.t) :
  exists best,
    In best (firstn 8 (getGridCandidates (ImageData.width img) (ImageData.height img))) /\
    (forall c,
        In c (firstn 8 (getGridCandidates (ImageData.width img) (ImageData.height img))) ->
        combinedScore img c <= combinedScore img best) /\
    analyzeGridFromImageData img =
    Some (GridDetectionResult.mk
            (GridCandidate.rows best) (GridCandidate.cols best)
            (GridDetectionResult.cells
               (createGridForDimensions (ImageData.width img) (ImageData.height img)
                  (GridCandidate.rows best) (GridCandidate.cols best)))
            (combinedScore img best)).
Proof.
  unfold analyzeGridFromImageData.
  pose proof (getGridCandidates_nonempty (ImageData.width img) (ImageData.height img)) as Hne.
  destruct (getGridCandidates _ _) as [|c0 rest]; [congruence|].
  cbv zeta. change (firstn 8 (c0 :: rest)) with (c0 :: firstn 7 rest).
  cbn [fold_left]. rewrite pick_step_combined. cbn [snd].
  destruct (pick_fold_max img (firstn 7 rest) c0) as [best [E [Hin [Hle Hall]]]].
  rewrite E. exists best. split; [|split; [|reflexivity]].
  - destruct Hin as [-> | Hin]; [now left | now right].
  - intros c [<- | Hc]; [exact Hle | now apply Hall].
Qed.

(** X13: The geometric detector returns the regular partition of the
    candidate that has the largest combined score [0.8 score + 0.2
    edgeScore] among the first eight candidates, with that score as
    confidence and [rows * cols] cells. *)
Theorem analyzeGridFromImageData_argmax (img : ImageData.t) :
  exists best g,
    analyzeGridFromImageData img = Some g /\
    In best (firstn 8 (getGridCandidates (ImageData.width img) (ImageData.height img))) /\
    (forall c,
        In c (firstn 8 (getGridCandidates (ImageData.width img) (ImageData.height img))) ->
        combinedScore img c <= combinedScore img best) /\
    GridDetectionResult.rows g = GridCandidate.rows best /\
    GridDetectionResult.cols g = GridCandidate.cols best /\
    GridDetectionResult.confidence g = combinedScore img best /\
    GridDetectionResult.cells g =
    GridDetectionResult.cells
      (createGridForDimensions (ImageData.width img) (ImageData.height img)
         (GridCandidate.rows best) (GridCandidate.cols best)) /\
    Z.of_nat (length (GridDetectionResult.cells g))
    = (GridCandidate.rows best * GridCandidate.cols best)%Z.
Proof.
  destruct (analyzeGridFromImageData_best img) as [best [Hin [Hmax E]]].
  exists best. eexists. split; [exact E|].
  cbn [GridDetectionResult.rows GridDetectionResult.cols
       GridDetectionResult.confidence GridDetectionResult.cells].
  repeat (split; [assumption || reflexivity|]).
  apply In_firstn, getGridCandidates_tried in Hin. destruct Hin as [Hr [Hc _]].
  rewrite createGridForDimensions_cells.
  rewrite (length_blocks _ (Z.to_nat (GridCandidate.cols best))).
  - rewrite length_range. nia.
  - intros a _. now rewrite length_map, length_range.
Qed.

(** X14: For an image of positive width and height the geometric detector
    answers with a confidence above -0.1 and at most 1. *)
Theorem analyzeGridFromImageData_confidence (img : ImageData.t) :
  (1 <= ImageData.width img)%Z -> (1 <= ImageData.height img)%Z ->
  exists g,
    analyzeGridFromImageData img = Some g /\
    - 0.1 < GridDetectionResult.confidence g <= 1.
Proof.
  intros Hw Hh.
  destruct (analyzeGridFromImageData_best img) as [best [Hin [_ E]]].
  eexists. split; [exact E|]. cbn [GridDetectionResult.confidence].
  apply In_firstn in Hin.
  assert (Hs : 0 < GridCandidate.score best <= 1).
  { rewrite getGridCandidates_sort in Hin.
    apply (Permutation_in _ (Permutation_sym (Array_sort_perm _ _))) in Hin.
    apply In_generated in Hin. destruct Hin as [rows [cols [[Hr [Hcl _]] ->]]].
    apply gridCandidate_score_between; try lia; apply IZR_lt; lia. }
  unfold combinedScore.
  set (e := scoreGridByEdges _ _ _ _ _ _).
  destruct (scoreGridByEdges_range (GridCandidate.rows best) (GridCandidate.cols best)
              (ImageData.width img) (ImageData.height img)
              (calculateVerticalEdgeProfile img) (calculateHorizontalEdgeProfile img))
    as [Lo Hi].
  fold e in Lo, Hi. apply Qle_Rle in Lo, Hi.
  replace (Q2R (- (1 # 2))) with (- (1 / 2)) in Lo by (unfold Q2R; cbn; lra).
  replace (Q2R 1) with 1 in Hi by (unfold Q2R; cbn; lra).
  lra.
Qed.

Lemma analyzeGridFromImageData_confidence_witness :
  exists g,
    analyzeGridFromImageData white_pixel = Some g /\
    - 0.1 < GridDetectionResult.confidence g <= 1.
Proof.
  apply (analyzeGridFromImageData_confidence white_pixel); cbn; lia.
Defined.

(** *** Images without any edge *)

Lemma fold_sum_zero (g : Z -> Q) (l : list Z) :
  (forall y, In y l -> (g y == 0)%Q) ->
  (fold_left (fun acc y => acc + g y) l 0 == 0)%Q.
Proof.
  assert (G : forall a, (a == 0)%Q -> (forall y, In y l -> (g y == 0)%Q) ->
              (fold_left (fun acc y => acc + g y) l a == 0)%Q).
  { induction l as [|y l IH]; intros a Ha H; cbn [fold_left]; [exact Ha|].
    apply IH; [|intros z Hz; apply H; now right].
    rewrite Ha, (H y (or_introl eq_refl)). reflexivity. }
  intros H. apply G; [reflexivity | exact H].
Qed.

Lemma uniform_gradient (img : ImageData.t) (x1 y1 x2 y2 : Z) :
  uniform img ->
  (0 <= x1 < ImageData.width img)%Z -> (0 <= y1 < ImageData.height img)%Z ->
  (0 <= x2 < ImageData.width img)%Z -> (0 <= y2 < ImageData.height img)%Z ->
  (gradient img ((y1 * ImageData.width img + x1) * 4)
                ((y2 * ImageData.width img + x2) * 4) == 0)%Q.
Proof.
  intros [r [g [b U]]] Hx1 Hy1 Hx2 Hy2. unfold gradient.
  destruct (U x1 y1 Hx1 Hy1) as (-> & -> & ->).
  destruct (U x2 y2 Hx2 Hy2) as (-> & -> & ->).
  rewrite !Z.sub_diag. reflexivity.
Qed.

Lemma uniform_profiles (img : ImageData.t) :
  uniform img ->
  (forall q, In q (calculateVerticalEdgeProfile img) -> (q == 0)%Q) /\
  (forall q, In q (calculateHorizontalEdgeProfile img) -> (q == 0)%Q).
Proof.
  intros U. unfold calculateVerticalEdgeProfile, calculateHorizontalEdgeProfile.
  split; intros q Hq; apply in_map_iff in Hq; destruct Hq as [p [<- Hp]];
    apply In_range in Hp.
  - destruct (Z.leb_spec 1 p), (Z.ltb_spec p (ImageData.width img - 1));
      cbn [andb]; try reflexivity.
    rewrite fold_sum_zero; [unfold Qdiv; apply Qmult_0_l|].
    intros y Hy. apply In_range in Hy. apply uniform_gradient; auto; lia.
  - destruct (Z.leb_spec 1 p), (Z.ltb_spec p (ImageData.height img - 1));
      cbn [andb]; try reflexivity.
    rewrite fold_sum_zero; [unfold Qdiv; apply Qmult_0_l|].
    intros x Hx. apply In_range in Hx. apply uniform_gradient; auto; lia.
Qed.

Lemma uniform_combinedScore (img : ImageData.t) (c : GridCandidate.t) :
  uniform img -> combinedScore img c = GridCandidate.score c * 0.8.
Proof.
  intros U. destruct (uniform_profiles img U) as [Hv Hh]. unfold combinedScore.
  rewrite (Qeq_eqR _ _ (scoreGridByEdges_flat _ _ _ _ _ _ Hv Hh)).
  replace (Q2R 0) with 0 by (unfold Q2R; cbn; lra). lra.
Qed.

Lemma pick_fold_keep (img : ImageData.t) (l : list GridCandidate.t)
      (b : GridCandidate.t) :
  (forall c, In c l -> combinedScore img c <= combinedScore img b) ->
  fold_left (pick_step img (calculateVerticalEdgeProfile img)
                       (calculateHorizontalEdgeProfile img))
            l (b, Some (combinedScore img b))
  = (b, Some (combinedScore img b)).
Proof.
  induction l as [|c l IH]; intros H; cbn [fold_left]; [reflexivity|].
  rewrite pick_step_combined. cbn [snd].
  destruct (Rgt_dec _ _) as [G | G].
  - specialize (H c (or_introl eq_refl)). lra.
  - apply IH. intros c' Hc'. apply H. now right.
Qed.

(** X15: On an image whose pixels all have the same colour, both edge
    profiles are zero everywhere, the edge score of every grid is 0, and
    the geometric detector returns the partition of the first (best
    ranked) candidate, with 0.8 times its geometric score as confidence. *)
Theorem analyzeGridFromImageData_uniform (img : ImageData.t) :
  uniform img ->
  (forall q, In q (calculateVerticalEdgeProfile img) -> (q == 0)%Q) /\
  (forall q, In q (calculateHorizontalEdgeProfile img) -> (q == 0)%Q) /\
  (forall rows cols,
      (scoreGridByEdges rows cols (ImageData.width img) (ImageData.height img)
         (calculateVerticalEdgeProfile img) (calculateHorizontalEdgeProfile img)
       == 0)%Q) /\
  exists first rest,
    getGridCandidates (ImageData.width img) (ImageData.height img) = first :: rest /\
    analyzeGridFromImageData img =
    Some (GridDetectionResult.mk
            (GridCandidate.rows first) (GridCandidate.cols first)
            (GridDetectionResult.cells
               (createGridForDimensions (ImageData.width img) (ImageData.height img)
                  (GridCandidate.rows first) (GridCandidate.cols first)))
            (GridCandidate.score first * 0.8)).
Proof.
  intros U. destruct (uniform_profiles img U) as [Hv Hh].
  split; [exact Hv|]. split; [exact Hh|].
  split; [intros rows cols; now apply scoreGridByEdges_flat|].
  unfold analyzeGridFromImageData.
  pose proof (getGridCandidates_nonempty (ImageData.width img) (ImageData.height img)) as Hne.
  pose proof (getGridCandidates_sorted (ImageData.width img) (ImageData.height img)) as Hs.
  destruct (getGridCandidates _ _) as [|c0 rest]; [congruence|].
  exists c0, rest. split; [reflexivity|].
  cbv zeta. change (firstn 8 (c0 :: rest)) with (c0 :: firstn 7 rest).
  cbn [fold_left]. rewrite pick_step_combined. cbn [snd].
  rewrite pick_fold_keep.
  - now rewrite uniform_combinedScore.
  - intros c Hc. rewrite !uniform_combinedScore by exact U.
    apply In_firstn in Hc. inversion Hs as [|? ? _ Hall]; subst.
    rewrite Forall_forall in Hall. specialize (Hall c Hc). lra.
Qed.

Lemma grey_square_uniform : uniform grey_square.
Proof.
  exists 128%Z, 128%Z, 128%Z. intros x y Hx Hy.
  change (ImageData.width grey_square) with 4%Z in *.
  change (ImageData.height grey_square) with 4%Z in *.
  assert (Ex : (x = 0 \/ x = 1 \/ x = 2 \/ x = 3)%Z) by lia.
  assert (Ey : (y = 0 \/ y = 1 \/ y = 2 \/ y = 3)%Z) by lia.
  destruct Ex as [-> | [-> | [-> | ->]]]; destruct Ey as [-> | [-> | [-> | ->]]];
    repeat split; reflexivity.
Defined.

Lemma analyzeGridFromImageData_uniform_witness :
  (forall q, In q (calculateVerticalEdgeProfile grey_square) -> (q == 0)%Q) /\
  (forall q, In q (calculateHorizontalEdgeProfile grey_square) -> (q == 0)%Q) /\
  (forall rows cols,
      (scoreGridByEdges rows cols 4 4
         (calculateVerticalEdgeProfile grey_square)
         (calculateHorizontalEdgeProfile grey_square) == 0)%Q) /\
  exists first rest,
    getGridCandidates 4 4 = first :: rest /\
    analyzeGridFromImageData grey_square =
    Some (GridDetectionResult.mk
            (GridCandidate.rows first) (GridCandidate.cols first)
            (GridDetectionResult.cells
               (createGridForDimensions 4 4
                  (GridCandidate.rows first) (GridCandidate.cols first)))
            (GridCandidate.score first * 0.8)).
Proof.
  apply (analyzeGridFromImageData_uniform grey_square grey_square_uniform).
Defined.
End GeometricChoice.

(** ** Outcomes of the entry points *)

Section Outcomes.
Variable loadImage : string -> option ImageData.t.
Variable getContext2d : bool.
Variable cropToDataURL : ImageData.t -> GridCell.t -> string.

Lemma createGridForDimensions_length (w h rows cols : Z) :
  length (GridDetectionResult.cells (createGridForDimensions w h rows cols))
  = (Z.to_nat rows * Z.to_nat cols)%nat.
Proof.
  rewrite createGridForDimensions_cells.
  rewrite (length_blocks _ (Z.to_nat cols)).
  - now rewrite length_range.
  - intros a _. now rewrite length_map, length_range.
Qed.

Lemma split_loop_no_context (img : ImageData.t) (cells : list GridCell.t)
      (results : list string) :
  getContext2d = false -> cells <> [] ->
  split_loop getContext2d cropToDataURL img cells results =
  Rejected "Could not get canvas context"%string.
Proof.
  intros Hctx Hne. destruct cells as [|cell rest]; [congruence|].
  cbn [split_loop]. now rewrite Hctx.
Qed.

(** X16: [splitImage] rejects when the image does not load; otherwise it
    resolves with one data URL per cell, in the order of [grid.cells],
    unless no canvas context is available and there is at least one cell;
    for a grid without cells it resolves with the empty list, context or
    not. *)
Theorem splitImage_outcomes (imageDataUrl : string) (grid : GridDetectionResult.t) :
  match loadImage imageDataUrl with
  | None =>
      splitImage loadImage getContext2d cropToDataURL imageDataUrl grid =
      Rejected "Failed to load image"%string
  | Some img =>
      if getContext2d then
        splitImage loadImage getContext2d cropToDataURL imageDataUrl grid =
        Resolved (map (cropToDataURL img) (GridDetectionResult.cells grid))
      else
        match GridDetectionResult.cells grid with
        | [] =>
            splitImage loadImage getContext2d cropToDataURL imageDataUrl grid =
            Resolved []
        | _ :: _ =>
            splitImage loadImage getContext2d cropToDataURL imageDataUrl grid =
            Rejected "Could not get canvas context"%string
        end
  end.
Proof.
  unfold splitImage. destruct (loadImage imageDataUrl) as [img|]; [|reflexivity].
  destruct getContext2d eqn:Hctx.
  - rewrite <- Hctx at 1. rewrite (split_loop_map getContext2d); [reflexivity | exact Hctx].
  - destruct (GridDetectionResult.cells grid) as [|cell rest]; reflexivity.
Qed.

(** X17: [detectAndSplitGrid] rejects with "Failed to load image" when the
    image does not decode and with "Could not get canvas context" when no
    2d context is available; otherwise it resolves with a grid and exactly
    one image per cell of that grid, never with a partial result. *)
Theorem detectAndSplitGrid_outcomes (imageDataUrl : string) :
  match loadImage imageDataUrl with
  | None =>
      detectAndSplitGrid loadImage getContext2d cropToDataURL imageDataUrl =
      Rejected "Failed to load image"%string
  | Some img =>
      if getContext2d then
        exists grid,
          detectAndSplitGrid loadImage getContext2d cropToDataURL imageDataUrl =
          Resolved (grid, map (cropToDataURL img) (GridDetectionResult.cells grid))
      else
        detectAndSplitGrid loadImage getContext2d cropToDataURL imageDataUrl =
        Rejected "Could not get canvas context"%string
  end.
Proof.
  destruct (loadImage imageDataUrl) as [img|] eqn:Himg.
  - destruct getContext2d eqn:Hctx.
    + rewrite <- Hctx.
      destruct (needs_fallback (detectGridWithGutters_pixels img)) eqn:Hfb.
      * destruct (detectAndSplitGrid_falls_back loadImage getContext2d cropToDataURL
                    imageDataUrl img Himg Hctx Hfb) as [heuristic [_ E]].
        eauto.
      * destruct (detectGridWithGutters_pixels img) as [g|] eqn:Eg; [|discriminate].
        exists g. unfold detectAndSplitGrid, detectGridWithGutters.
        rewrite Himg, Hctx, Eg. cbn [await]. rewrite Hfb. cbn [await].
        now rewrite (splitImage_map loadImage true cropToDataURL _ img _ Himg eq_refl).
    + unfold detectAndSplitGrid, detectGridWithGutters, detectGrid.
      rewrite Himg. reflexivity.
  - unfold detectAndSplitGrid, detectGridWithGutters, detectGrid.
    rewrite Himg. reflexivity.
Qed.

(** X18: Whenever [detectAndSplitGrid] resolves, it returns as many images as
    the grid has cells, and at least two: the gutter grid is only kept
    with two cells or more, and the geometric detector never proposes the
    1 by 1 grid. *)
Theorem detectAndSplitGrid_at_least_two (imageDataUrl : string)
        (grid : GridDetectionResult.t) (images : list string) :
  detectAndSplitGrid loadImage getContext2d cropToDataURL imageDataUrl =
  Resolved (grid, images) ->
  length images = length (GridDetectionResult.cells grid) /\
  (2 <= length images)%nat.
Proof.
  intros H. unfold detectAndSplitGrid, detectGridWithGutters, detectGrid in H.
  destruct (loadImage imageDataUrl) as [img|] eqn:Himg; [|discriminate].
  destruct getContext2d eqn:Hctx; [|discriminate].
  cbn [await] in H.
  assert (Hsplit : forall g,
            splitImage loadImage true cropToDataURL imageDataUrl g =
            Resolved (map (cropToDataURL img) (GridDetectionResult.cells g)))
    by (intros g; now apply splitImage_map).
  destruct (needs_fallback (detectGridWithGutters_pixels img)) eqn:Hfb.
  - destruct (analyzeGridFromImageData_grid img) as [r [c [s [[Hr [Hc Hne]] E]]]].
    rewrite E in H. cbn [await] in H. rewrite Hsplit in H. cbn [await] in H.
    set (X := GridDetectionResult.cells (createGridForDimensions _ _ r c)) in *.
    injection H as <- <-. cbn [GridDetectionResult.cells].
    rewrite length_map. split; [reflexivity|].
    subst X. rewrite createGridForDimensions_length. nia.
  - destruct (detectGridWithGutters_pixels img) as [g|]; [|discriminate].
    cbn [await] in H. rewrite Hsplit in H. cbn [await] in H.
    injection H as <- <-. rewrite length_map. split; [reflexivity|].
    cbn [needs_fallback] in Hfb. apply Nat.ltb_ge in Hfb. exact Hfb.
Qed.

(** X19: [splitWithDimensions] rejects when the image does not load.  When
    it loads and a context is available, it resolves with the regular
    partition and, for [rows, cols >= 0], exactly [rows * cols] images, the
    image at position [row * cols + col] being the crop of cell [(row,
    col)], whose offsets and sizes are [Math.round] of the binary64
    products and quotients.  For [rows <= 0] or [cols <= 0] it resolves
    with no image at all, even without a context. *)
Theorem splitWithDimensions_outcomes (imageDataUrl : string) (rows cols : Z) :
  match loadImage imageDataUrl with
  | None =>
      splitWithDimensions loadImage getContext2d cropToDataURL imageDataUrl rows cols =
      Rejected "Failed to load image"%string
  | Some img =>
      let w := ImageData.width img in
      let h := ImageData.height img in
      let grid := createGridForDimensions_binary64 w h rows cols in
      (getContext2d = true ->
       splitWithDimensions loadImage getContext2d cropToDataURL imageDataUrl rows cols =
       Resolved (grid, map (cropToDataURL img) (GridDetectionResult.cells grid)) /\
       (0 <= rows -> 0 <= cols ->
        Z.of_nat (length (GridDetectionResult.cells grid)) = rows * cols) /\
       (forall row col,
           0 <= row < rows -> 0 <= col < cols ->
           nth_error (map (cropToDataURL img) (GridDetectionResult.cells grid))
                     (Z.to_nat (row * cols + col)) =
           Some (cropToDataURL img
                   (GridCell.mk
                      (Math_round64 (PrimFloat.mul (Number_of_Z col)
                         (PrimFloat.div (Number_of_Z w) (Number_of_Z cols))))
                      (Math_round64 (PrimFloat.mul (Number_of_Z row)
                         (PrimFloat.div (Number_of_Z h) (Number_of_Z rows))))
                      (Math_round64 (PrimFloat.div (Number_of_Z w) (Number_of_Z cols)))
                      (Math_round64 (PrimFloat.div (Number_of_Z h) (Number_of_Z rows))))))) /\
      (rows <= 0 \/ cols <= 0 ->
       splitWithDimensions loadImage getContext2d cropToDataURL imageDataUrl rows cols =
       Resolved (grid, []))
  end.
Proof.
  unfold splitWithDimensions, detectGridWithDimensions.
  destruct (loadImage imageDataUrl) as [img|] eqn:Himg; [|reflexivity].
  cbn [await]. cbv zeta.
  set (grid := createGridForDimensions_binary64
                 (ImageData.width img) (ImageData.height img) rows cols).
  assert (Hlen : length (GridDetectionResult.cells grid)
                 = (Z.to_nat rows * Z.to_nat cols)%nat)
    by (subst grid; apply createGridForDimensions_binary64_length).
  split.
  - intros Hctx. split; [|split].
    + now rewrite (splitImage_map loadImage getContext2d cropToDataURL _ img _ Himg Hctx).
    + intros Hr Hc. rewrite Hlen. nia.
    + intros row col Hrow Hcol. rewrite nth_error_map. subst grid.
      rewrite createGridForDimensions_binary64_nth by assumption. reflexivity.
  - intros Hempty.
    assert (E : GridDetectionResult.cells grid = []).
    { apply length_zero_iff_nil. rewrite Hlen. nia. }
    unfold splitImage. rewrite Himg, E. reflexivity.
Qed.
End Outcomes.

Lemma detectAndSplitGrid_at_least_two_witness :
  length [EmptyString; EmptyString] = 2%nat /\ (2 <= 2)%nat.
Proof.
  apply (detectAndSplitGrid_at_least_two (fun _ => Some two_dots) true
           (fun _ _ => EmptyString) EmptyString
           (GridDetectionResult.mk 1 2
              [ GridCell.mk 0 0 1 1; GridCell.mk 2 0 1 1 ] 0.95%R)
           [EmptyString; EmptyString]).
  reflexivity.
Defined.
